(** * DarkFi research scripts: lottery simulation engine and explorer front end

    A shallow embedding of
    - [script/research/lotterysim/core/lottery.py] (class [DarkfiTable]), and
    - [script/research/blockchain-explorer/site/app.py] (the [search] view),
    together with the properties of the slot loop, the payout and resync
    bookkeeping, the summary statistics and the search fallback.

    Python exceptions are values of an error monad; every raise site carries
    the source line it comes from, as a traceback would. *)

From Stdlib Require Import ZArith Lia.
From stdpp Require Import base numbers list strings.

Local Open Scope Z_scope.

(** ** Exceptions and the error monad *)

(** The exceptions the engine can raise, tagged with the line of
    [lottery.py] that raises them. *)
Inductive exn : Type :=
  | AssertionError (line : nat)
  | IndexError (line : nat)
  | ZeroDivisionError (line : nat)
  | UnboundLocalError (line : nat)
  | ValueError (line : nat).

Inductive result (E A : Type) : Type :=
  | Ok (a : A)
  | Raise (e : E).
Arguments Ok {E A} a.
Arguments Raise {E A} e.

#[global] Instance result_ret {E} : MRet (result E) := fun _ a => Ok a.
#[global] Instance result_bind {E} : MBind (result E) :=
  fun _ _ k m => match m with Ok a => k a | Raise e => Raise e end.

(** [for count in counts: body], stopping at the first exception. *)
Fixpoint for_each {E S : Type} (body : Z → S → result E S) (counts : list Z) (s : S)
  : result E S :=
  match counts with
  | [] => Ok s
  | c :: cs => s' ← body c s; for_each body cs s'
  end.

(** [np.arange(0, n, 1)]: empty when [n <= 0]. *)
Definition arange (n : Z) : list Z := Z.of_nat <$> seq 0 (Z.to_nat n).

(** [l[i]] with Python's negative indices; [None] stands for IndexError. *)
Definition py_index {A : Type} (l : list A) (i : Z) : option A :=
  if decide (0 ≤ i) then l !! Z.to_nat i
  else if decide (- Z.of_nat (length l) ≤ i) then l !! Z.to_nat (Z.of_nat (length l) + i)
  else None.

(** ** Interfaces of the modules imported by [lottery.py]

    [core.darkie], [pid.cascade] and the constants they export are imported
    with [from ... import *]; the engine only goes through the methods below. *)

(** The numbers the engine computes with (stake, supply, rewards): the
    source never fixes their Python type, it only adds, divides, compares
    and rounds them. *)
Class Number (R : Type) := {
  Rint : Z → R;               (* an int used as a number: [0], [float(feedback)], [len(..)] *)
  Radd : R → R → R;           (* [x + y] *)
  Rdiv : R → R → R;           (* [x / y], for [y] not zero *)
  Rleb : R → R → bool;        (* [x <= y] *)
  round1 : R → R;             (* [round(x, 1)] *)
}.

Definition Rle `{Number R} (x y : R) : Prop := Rleb x y = true.

(** The order laws supply monotonicity relies on: [<=] is a preorder and
    adding a non-negative amount does not decrease a number. *)
Class NumberOrder (R : Type) `{Number R} : Prop := {
  Rle_refl : ∀ x : R, Rle x x;
  Rle_trans : ∀ x y z : R, Rle x y → Rle y z → Rle x z;
  Radd_nonneg : ∀ x r : R, Rle (Rint 0) r → Rle x (Radd x r);
}.

(** The global [random] module: a generator state threaded through every
    draw. *)
Class Random (G : Type) := {
  randint : Z → Z → G → Z * G;                      (* [random.randint(a, b)], [a <= b] *)
  shuffle : ∀ {A : Type}, list A → G → list A * G;  (* [random.shuffle(x)] *)
}.

(** [random.shuffle] rearranges its argument. *)
Class RandomShuffle (G : Type) `{Random G} : Prop :=
  shuffle_perm : ∀ (A : Type) (l : list A) (g : G), (shuffle l g).1 ≡ₚ l.

(** Modelled from the spec: class [Darkie] of [core/darkie.py], the
    participant capability of section 4.2 (state of one participant and the
    methods the engine calls on it). *)
Class Darkie (R G D : Type) := {
  set_sigma_feedback : R → Z → R → Z → bool → D → D;
  run : bool → D → G → D * G;
  stake : D → R;
  won_hist : D → list bool;
  update_stake : R → D → D;
  resync_stake : R → D → D;
  apy_scaled_to_runningtime : list R → D → R;
  apr_scaled_to_runningtime : D → R;
  staked_tokens_ratio : D → R;
}.

(** Modelled from the spec: the controller classes of [pid/cascade.py]
    (section 4.1): [pid_clipped] returns the clipped output and the updated
    controller. *)
Class PID (R P : Type) := {
  pid_clipped : R → bool → P → R * P;
  acc : P → R;
  acc_percentage : P → R;
}.

(** ** The engine: class [DarkfiTable] *)

Section Lottery.
Context {R G D P1 P2 : Type}.
Context `{!Number R, !Random G, !Darkie R G D}.
Context {primary : PID R P1} {secondary : PID R P2}.
  (** The constant [EPOCH_LENGTH], a positive number of slots. *)
Variable EPOCH_LENGTH : positive.

  (** The attributes of a [DarkfiTable] the slot loop reads or writes
      ([start_time] and [end_time] are wall-clock stamps, left out). *)
Record DarkfiTable : Type := mkTable {
    Sigma : R;
    darkies : list D;
    running_time : Z;
    secondary_pid : P2;
    primary_pid : P1;
    debug : bool;
    rewards : list R;
    winners : list Z;
  }.

  (** [DarkfiTable.__init__], the controllers being built by the caller. *)
Definition init (airdrop : R) (running_time : Z) (sec : P2) (pri : P1) (debug : bool)
    : DarkfiTable :=
    mkTable airdrop [] running_time sec pri debug [] [].

Definition add_darkie (darkie : D) (t : DarkfiTable) : DarkfiTable :=
    mkTable (Sigma t) (darkies t ++ [darkie]) (running_time t) (secondary_pid t)
            (primary_pid t) (debug t) (rewards t) (winners t).

  (** [sum(xs)]: starts from the int [0]. *)
Definition Rsum (xs : list R) : R := foldl Radd (Rint 0) xs.

  (** [sum(xs)/len(ys)] as the summaries write it: with an empty [ys] the
      sum is the int [0] over the int [0]. *)
Definition div_len (line : nat) (x : R) (n : nat) : result exn R :=
    if decide (n = 0%nat) then Raise (ZeroDivisionError line)
    else Ok (Rdiv x (Rint (Z.of_nat n))).

  (** Lines 106-113. *)
Definition avg_apy (t : DarkfiTable) : result exn R :=
    div_len 107 (Rsum (apy_scaled_to_runningtime (rewards t) <$> darkies t))
            (length (darkies t)).
Definition avg_apr (t : DarkfiTable) : result exn R :=
    div_len 110 (Rsum (apr_scaled_to_runningtime <$> darkies t)) (length (darkies t)).
Definition avg_stake_ratio (t : DarkfiTable) : result exn R :=
    div_len 113 (Rsum (staked_tokens_ratio <$> darkies t)) (length (darkies t)).

  (** Lines 52-57: every participant is configured and run in list order;
      [total_stake] accumulates the stakes right after each [run]. *)
Fixpoint run_darkies (Sg : R) (feedback : Z) (f : R) (count : Z) (hp : bool)
      (ds : list D) (total_stake : R) (g : G) : list D * R * G :=
    match ds with
    | [] => ([], total_stake, g)
    | d :: ds' =>
        let '(d1, g1) := run hp (set_sigma_feedback Sg feedback f count hp d) g in
        let '(ds1, ts, g2) :=
          run_darkies Sg feedback f count hp ds' (Radd total_stake (stake d1)) g1 in
        (d1 :: ds1, ts, g2)
    end.

  (** Lines 61-62: [winners += self.darkies[i].won_hist[-1]]. *)
Fixpoint count_winners (ds : list D) (winners : Z) : result exn Z :=
    match ds with
    | [] => Ok winners
    | d :: ds' =>
        match last (won_hist d) with
        | None => Raise (IndexError 62)
        | Some b => count_winners ds' (winners + Z.b2z b)
        end
    end.

  (** Lines 67-70: the first participant whose last outcome is a win gets
      [update_stake(self.rewards[-1])], then [break]. *)
Fixpoint pay_winner (rewards : list R) (ds : list D) : result exn (list D) :=
    match ds with
    | [] => Ok []
    | d :: ds' =>
        match last (won_hist d) with
        | None => Raise (IndexError 68)
        | Some true =>
            match last rewards with
            | None => Raise (IndexError 69)
            | Some r => Ok (update_stake r d :: ds')
            end
        | Some false => ds1 ← pay_winner rewards ds'; Ok (d :: ds1)
        end
    end.

  (** Lines 74-79: [for i in reversed(self.winners[:-1])], counting until
      the first entry equal to 1. *)
Fixpoint count_until_one (ws : list Z) (merge_length : nat) : nat :=
    match ws with
    | [] => merge_length
    | i :: ws' => if decide (i ≠ 1) then count_until_one ws' (S merge_length)
                  else merge_length
    end.
Definition merge_length (winners : list Z) : nat :=
    count_until_one (rev (removelast winners)) 0.

  (** Lines 88-91: index of the first participant that won slot
      [resync_slot_id], if there is one. *)
Fixpoint first_winner_at (resync_slot_id : Z) (ds : list D) (darkie_idx : nat)
    : result exn (option nat) :=
    match ds with
    | [] => Ok None
    | d :: ds' =>
        match py_index (won_hist d) resync_slot_id with
        | None => Raise (IndexError 89)
        | Some true => Ok (Some darkie_idx)
        | Some false => first_winner_at resync_slot_id ds' (S darkie_idx)
        end
    end.

  (** Lines 81-93: one iteration of the resync loop, on the supply, the
      participant list and the generator. *)
Definition resync_one (count : Z) (rewards : list R) (i : Z) (s : R * list D * G)
    : result exn (R * list D * G) :=
    let '(Sg, ds, g) := s in
    let resync_slot_id := count - (i + 1) in
    let resync_reward_id := Z.quot resync_slot_id (Z.pos EPOCH_LENGTH) in
    match py_index rewards resync_reward_id with
    | None => Raise (IndexError 83)
    | Some resync_reward =>
        let '(ds1, g1) := shuffle ds g in
        found ← first_winner_at resync_slot_id ds1 0;
        let darkie_winning_idx := default 0%nat found in
        match ds1 !! darkie_winning_idx with
        | None => Raise (IndexError 92)
        | Some d =>
            Ok (Radd Sg resync_reward,
                <[darkie_winning_idx := resync_stake resync_reward d]> ds1, g1)
        end
    end.

  (** Lines 66-93: payout and resync of a slot whose winner count was just
      appended to [winners]. *)
Definition finalize (count : Z) (rewards : list R) (winners : list Z)
      (s : R * list D * G) : result exn (R * list D * G) :=
    let '(Sg, ds, g) := s in
    if decide (last winners = Some 1) then
      ds1 ← pay_winner rewards ds;
      match last rewards with
      | None => Raise (IndexError 72)
      | Some r =>
          for_each (resync_one count rewards) (arange (Z.of_nat (merge_length winners)))
                   (Radd Sg r, ds1, g)
      end
    else Ok s.

  (** The local variables of [background] that live across iterations,
      next to the object and the generator. *)
Record frame : Type := mkFrame {
    self : DarkfiTable;
    feedback : Z;
    acc_var : option R;     (* [acc], unbound until the first epoch boundary *)
    rng : G;
  }.

  (** What one iteration hands to the end-of-slot check. *)
Record slot_out : Type := mkOut {
    out_frame : frame;
    out_total_stake : R;
  }.

  (** Lines 44-48: at an epoch boundary [acc] is rebound and one reward is
      appended; otherwise [acc], the primary controller and [rewards] are
      left as they are. *)
Definition epoch_boundary (dbg : bool) (count : Z) (sec : P2) (fr : frame)
    : option R * P1 * list R :=
    let t := self fr in
    if decide (count `mod` Z.pos EPOCH_LENGTH = 0) then
      let a := acc sec in
      let '(reward, pri) := pid_clipped a dbg (primary_pid t) in
      (Some a, pri, rewards t ++ [reward])
    else (acc_var fr, primary_pid t, rewards t).

  (** Lines 41-93 of the loop body, up to the progress report. *)
Definition slot_work (dbg hp : bool) (count : Z) (fr : frame) : result exn slot_out :=
    let t := self fr in
    let '(f, sec) := pid_clipped (Rint (feedback fr)) dbg (secondary_pid t) in
    let '(acc1, pri, rewards1) := epoch_boundary dbg count sec fr in
    let '(ds1, total_stake, g1) :=
      run_darkies (Sigma t) (feedback fr) f count hp (darkies t) (Rint 0) (rng fr) in
    w ← count_winners ds1 0;
    let winners1 := winners t ++ [w] in
    '(Sg2, ds2, g2) ← finalize count rewards1 winners1 (Sigma t, ds1, g1);
    Ok (mkOut (mkFrame (mkTable Sg2 ds2 (running_time t) sec pri (debug t) rewards1 winners1)
                       w acc1 g2)
              total_stake).

  (** The participants of a slot right after the per-participant update
      of lines 52-57, with [total_stake] and the generator. *)
Definition slot_ran (dbg hp : bool) (count : Z) (fr : frame) : list D * R * G :=
    let t := self fr in
    run_darkies (Sigma t) (feedback fr)
                (pid_clipped (Rint (feedback fr)) dbg (secondary_pid t)).1
                count hp (darkies t) (Rint 0) (rng fr).

  (** [self.rewards] of a slot after lines 44-48. *)
Definition slot_rewards (dbg : bool) (count : Z) (fr : frame) : list R :=
    (epoch_boundary dbg count
       (pid_clipped (Rint (feedback fr)) dbg (secondary_pid (self fr))).2 fr).2.

  (** Lines 94-96: the progress report reads [acc]; then the assertion. *)
Definition slot_check (o : slot_out) : result exn frame :=
    match acc_var (out_frame o) with
    | None => Raise (UnboundLocalError 94)
    | Some _ =>
        if Rleb (round1 (out_total_stake o)) (round1 (Sigma (self (out_frame o))))
        then Ok (out_frame o)
        else Raise (AssertionError 96)
    end.

  (** One iteration of the [for count in rt_range] loop. *)
Definition slot (dbg hp : bool) (count : Z) (fr : frame) : result exn frame :=
    o ← slot_work dbg hp count fr; slot_check o.

  (** The first [n] iterations of the loop. *)
Definition run_slots (dbg hp : bool) (n : Z) (fr : frame) : result exn frame :=
    for_each (slot dbg hp) (arange n) fr.

  (** Lines 28-36: the frame the loop starts from. *)
Definition enter (rand_running_time dbg : bool) (t : DarkfiTable) (g : G)
    : result exn frame :=
    let t := mkTable (Sigma t) (darkies t) (running_time t) (secondary_pid t)
                     (primary_pid t) dbg (rewards t) (winners t) in
    '(rt, g1) ←
      (if rand_running_time then
         if decide (1 ≤ running_time t) then Ok (randint 1 (running_time t) g)
         else Raise (ValueError 32)
       else Ok (running_time t, g));
    Ok (mkFrame (mkTable (Sigma t) (darkies t) rt (secondary_pid t) (primary_pid t)
                         (debug t) (rewards t) (winners t))
                0 None g1).

  (** Lines 99-104: the summaries and the returned tuple. *)
Definition summaries (t : DarkfiTable) : result exn (R * R * R * R * R) :=
    avg_reward ← div_len 99 (Rsum (rewards t)) (length (rewards t));
    stake_ratio ← avg_stake_ratio t;
    apy ← avg_apy t;
    apr ← avg_apr t;
    Ok (acc_percentage (secondary_pid t), apy, avg_reward, stake_ratio, apr).

  (** [DarkfiTable.background]: the returned tuple and the state left
      behind. *)
Definition background (rand_running_time dbg hp : bool) (t : DarkfiTable) (g : G)
    : result exn (R * R * R * R * R * frame) :=
    fr0 ← enter rand_running_time dbg t g;
    fr ← run_slots dbg hp (running_time (self fr0)) fr0;
    res ← summaries (self fr);
    Ok (res, fr).

  (** [DarkfiTable.write], lines 117-118: the id each participant's log is
      written under. *)
Definition write_ids (t : DarkfiTable) : list (nat * D) := imap (λ id d, (id, d)) (darkies t).

End Lottery.

Arguments mkTable {R D P1 P2}.
Arguments mkFrame {R G D P1 P2}.
Arguments mkOut {R G D P1 P2}.
Arguments finalize : simpl never.
Arguments resync_one : simpl never.
Arguments slot_work : simpl never.
Arguments slot_ran : simpl never.
Arguments slot_rewards : simpl never.
Arguments epoch_boundary : simpl never.

(** ** The explorer front end: [app.py] *)

Module Explorer.
Section App.
  (** [Exc]: the exceptions derived from [Exception]; the [rpc] client and
      the template engine are the imported modules [rpc] and [flask]. *)
Context {Exc Block Transactions Transaction Html : Type}.

  (** Keyword arguments handed to [render_template]. *)
Inductive context : Type :=
    | BlockCtx (block : Block) (transactions : Transactions)
    | TransactionCtx (transaction : Transaction)
    | NoCtx.

Variable get_block : string → result Exc Block.
Variable get_block_transactions : string → result Exc Transactions.
Variable get_transaction : string → result Exc Transaction.
Variable render_template : string → context → result Exc Html.

  (** Lines 35-37, the body of the [try]. *)
Definition search_block (search_hash : string) : result Exc Html :=
    block ← get_block search_hash;
    transactions ← get_block_transactions search_hash;
    render_template "block.html" (BlockCtx block transactions).

  (** Lines 39-40, the body of [except Exception]. *)
Definition search_transaction (search_hash : string) : result Exc Html :=
    transaction ← get_transaction search_hash;
    render_template "transaction.html" (TransactionCtx transaction).

  (** [search], lines 32-40, on the request's [search_hash] argument. *)
Definition search (search_hash : string) : result Exc Html :=
    match search_block search_hash with
    | Ok page => Ok page
    | Raise _ => search_transaction search_hash
    end.

  (** The handler registered for 404 (lines 53-55). *)
Definition page_not_found_404 (e : Exc) : result Exc (Html * nat) :=
    page ← render_template "404.html" NoCtx; Ok (page, 404%nat).

  (** The handler registered for 500 (lines 57-59); it reuses the name
      [page_not_found]. *)
Definition page_not_found_500 (e : Exc) : result Exc (Html * nat) :=
    page ← render_template "500.html" NoCtx; Ok (page, 500%nat).
End App.

(** A node that knows one block and one transaction, for examples. *)
Module Demo.
Definition view : Type := string * @context string (list string) string.
Definition get_block (h : string) : result string string :=
    if decide (h = "b10c") then Ok "block b10c" else Raise "no such block".
Definition get_block_transactions (h : string) : result string (list string) :=
    if decide (h = "b10c") then Ok ["7a01"] else Raise "no such block".
Definition get_transaction (h : string) : result string string :=
    if decide (h = "7a01") then Ok "transaction 7a01" else Raise "no such transaction".
Definition render_template (name : string) (c : @context string (list string) string)
    : result string view := Ok (name, c).
Definition search : string → result string view :=
    search get_block get_block_transactions get_transaction render_template.
End Demo.
End Explorer.

(** ** A scripted instance of the interfaces, for examples

    Integer amounts (on which [round(x, 1)] is the identity), participants
    whose outcomes are read off a script, controllers with a constant
    output, and a generator whose shuffle reverses the list. *)
Module Scripted.

#[local] Instance number_Z : Number Z :=
    {| Rint := id; Radd := Z.add; Rdiv := Z.div; Rleb := Z.leb; round1 := id |}.

#[local] Instance random_nat : Random nat :=
    {| randint := λ a b g, (b, S g); shuffle := λ A l g, (rev l, S g) |}.

Record sdarkie : Type := mkSD {
    sd_id : nat;
    sd_stake : Z;
    sd_won : list bool;
    sd_script : list bool;     (* outcomes still to be drawn *)
    sd_updates : list Z;       (* arguments of the [update_stake] calls *)
    sd_resyncs : list Z;       (* arguments of the [resync_stake] calls *)
  }.

#[local] Instance darkie_scripted : Darkie Z nat sdarkie := {|
    set_sigma_feedback := λ _ _ _ _ _ d, d;
    run := λ _ d g,
      (mkSD (sd_id d) (sd_stake d) (sd_won d ++ [hd false (sd_script d)])
            (tl (sd_script d)) (sd_updates d) (sd_resyncs d), g);
    stake := sd_stake;
    won_hist := sd_won;
    update_stake := λ r d,
      mkSD (sd_id d) (sd_stake d + r) (sd_won d) (sd_script d)
           (sd_updates d ++ [r]) (sd_resyncs d);
    resync_stake := λ r d,
      mkSD (sd_id d) (sd_stake d + r) (sd_won d) (sd_script d)
           (sd_updates d) (sd_resyncs d ++ [r]);
    apy_scaled_to_runningtime := λ _ _, 0;
    apr_scaled_to_runningtime := λ _, 0;
    staked_tokens_ratio := λ _, 0;
  |}.

  (** A controller that always outputs its state. *)
Definition constant_pid : PID Z Z :=
    {| pid_clipped := λ _ _ p, (p, p); acc := λ _, 0; acc_percentage := λ _, 0 |}.

  (** A controller clipped below at 0: its output is never negative. *)
Definition clipped_pid : PID Z Z :=
    {| pid_clipped := λ _ _ p, (Z.max 0 p, p); acc := λ _, 0; acc_percentage := λ _, 0 |}.

Definition fresh (id : nat) (stake : Z) (script : list bool) : sdarkie :=
    mkSD id stake [] script [] [].

Definition EL : positive := 5.

Definition table (airdrop running_time reward : Z) (ds : list sdarkie)
    : @DarkfiTable Z sdarkie Z Z :=
    mkTable airdrop ds running_time 0 reward false [] [].

  (** The frame the loop starts from. *)
Definition start (t : @DarkfiTable Z sdarkie Z Z) : @frame Z nat sdarkie Z Z :=
    mkFrame t 0 None 0%nat.

Definition background (t : @DarkfiTable Z sdarkie Z Z) :=
    @background Z nat sdarkie Z Z _ _ _ constant_pid constant_pid EL false false true t 0%nat.

Definition run_slots (n : Z) (t : @DarkfiTable Z sdarkie Z Z) :=
    @run_slots Z nat sdarkie Z Z _ _ _ constant_pid constant_pid EL false true n (start t).

  (** Two participants; nobody wins slot 0, [1] wins slot 1. *)
Definition two_darkies : list sdarkie :=
    [fresh 1 100 [false; true]; fresh 2 100 [false; false]].

  (** One participant; it wins slot 0 and slot 3 only. *)
Definition one_darkie : list sdarkie := [fresh 1 100 [true; false; false; true]].

End Scripted.

(** ** Contracts the further properties assume of the imported classes *)

(** Exact arithmetic, as on Python ints: addition is associative and
    commutative with the int [0] as unit, and addition and [round(x, 1)]
    are monotone. *)
Class NumberExact (R : Type) `{Number R} : Prop := {
  Radd_assoc : ∀ x y z : R, Radd x (Radd y z) = Radd (Radd x y) z;
  Radd_comm : ∀ x y : R, Radd x y = Radd y x;
  Radd_0_l : ∀ x : R, Radd (Rint 0) x = x;
  Radd_mono : ∀ x y r : R, Rle x y → Rle (Radd x r) (Radd y r);
  round1_mono : ∀ x y : R, Rle x y → Rle (round1 x) (round1 y);
}.

(** The participant's history: [run] appends exactly one outcome and no
    other call touches [won_hist]. *)
Class DarkieHistory (R G D : Type) `{Darkie R G D} : Prop := {
  won_hist_set_sigma_feedback : ∀ (Sg : R) (fb : Z) (f : R) (count : Z) (hp : bool) (d : D),
    won_hist (set_sigma_feedback Sg fb f count hp d) = won_hist d;
  won_hist_run : ∀ (hp : bool) (d : D) (g : G),
    ∃ b, won_hist (run hp d g).1 = won_hist d ++ [b];
  won_hist_update_stake : ∀ (r : R) (d : D), won_hist (update_stake r d) = won_hist d;
  won_hist_resync_stake : ∀ (r : R) (d : D), won_hist (resync_stake r d) = won_hist d;
}.

(** The participant's stake: a payout adds the reward in full and no
    other call touches [stake]. *)
Class DarkieStake (R G D : Type) `{Number R, Darkie R G D} : Prop := {
  stake_set_sigma_feedback : ∀ (Sg : R) (fb : Z) (f : R) (count : Z) (hp : bool) (d : D),
    stake (set_sigma_feedback Sg fb f count hp d) = stake d;
  stake_run : ∀ (hp : bool) (d : D) (g : G), stake (run hp d g).1 = stake d;
  stake_update_stake : ∀ (r : R) (d : D), stake (update_stake r d) = Radd (stake d) r;
  stake_resync_stake : ∀ (r : R) (d : D), stake (resync_stake r d) = Radd (stake d) r;
}.

(** ** [DarkfiTable.write] *)

Section Write.
Context {R D P1 P2 T Err : Type}.
(** [T]: the values of [time.time()]; [start_time] and [end_time] are
    [None] until [background] sets them. [Err]: what a call to the outside
    raises when it fails ([OSError] and the like). *)
Variable Tsub : T → T → T.                 (* [end_time - start_time] *)
Variable Tdiv : T → Z → T.                 (* [elapsed / running_time], not by 0 *)
Variable timedelta_str : T → string.       (* [str(timedelta(seconds=x))] *)
Variable str : R → string.                 (* [str(i)] of a reward *)

(** The calls [write] makes to the outside, in order. *)
Inductive effect : Type :=
  | DarkieWrite (id : nat) (darkie : D)    (* [darkie.write(id)] *)
  | Print (text : string)                  (* [print(text)] *)
  | PidWrite (pid : P2)                    (* [self.secondary_pid.write()] *)
  | OpenFile (path mode : string)          (* [open(path, mode)] *)
  | FileWrite (path buff : string)         (* [f.write(buff)] *)
  | CloseFile (path : string).             (* leaving the [with] block *)

(** The outside: a call goes through ([None]) or raises. *)
Variable outside : effect → option Err.

Inductive write_error : Type :=
  | TypeError (line : nat)
  | DivisionByZero (line : nat)
  | Failed (call : effect) (err : Err).    (* the call that raised, and what *)

(** Calls made one after the other, up to the first that raises. *)
Fixpoint perform (calls : list effect) : list effect * option write_error :=
  match calls with
  | [] => ([], None)
  | c :: calls' =>
      match outside c with
      | Some err => ([], Some (Failed c err))
      | None => let '(made, r) := perform calls' in (c :: made, r)
      end
  end.

(** Lines 122-124: [with open(path, 'w+') as f: f.write(buff)]. The file
    is closed also when the write raises. *)
Definition with_open_write (path buff : string) : list effect * option write_error :=
  match outside (OpenFile path "w+") with
  | Some err => ([], Some (Failed (OpenFile path "w+") err))
  | None =>
      match outside (FileWrite path buff), outside (CloseFile path) with
      | None, None =>
          ([OpenFile path "w+"; FileWrite path buff; CloseFile path], None)
      | None, Some err =>
          ([OpenFile path "w+"; FileWrite path buff], Some (Failed (CloseFile path) err))
      | Some err, None =>
          ([OpenFile path "w+"; CloseFile path], Some (Failed (FileWrite path buff) err))
      | Some _, Some err =>
          ([OpenFile path "w+"], Some (Failed (CloseFile path) err))
      end
  end.

(** [first; then_] on calls: [then_] runs only when [first] raised
    nothing. *)
Definition and_then (first : list effect * option write_error)
    (then_ : list effect * option write_error) : list effect * option write_error :=
  match first with
  | (made, Some err) => (made, Some err)
  | (made, None) => (made ++ then_.1, then_.2)
  end.

(** [write], lines 115-124: the calls that went through, and the
    exception that stopped it if any. *)
Definition write (start_time end_time : option T) (t : @DarkfiTable R D P1 P2)
  : list effect * option write_error :=
  match end_time, start_time with
  | Some e, Some s =>
      let elapsed := Tsub e s in
      let rest :=
        and_then (perform [PidWrite (secondary_pid t)])
          (with_open_write "log/rewards.log" (String.concat "," (str <$> rewards t))) in
      and_then (perform (imap DarkieWrite (darkies t)))
        (if debug t then
           if decide (running_time t = 0) then ([], Some (DivisionByZero 120))
           else
             and_then
               (perform
                  [Print ("total time: " +:+ timedelta_str elapsed +:+ ", slot time: "
                          +:+ timedelta_str (Tdiv elapsed (running_time t)))])
               rest
         else rest)
  | _, _ => ([], Some (TypeError 116))
  end.
End Write.

Arguments effect : clear implicits.
Arguments write_error : clear implicits.
Arguments DarkieWrite {D P2}.
Arguments Print {D P2}.
Arguments PidWrite {D P2}.
Arguments OpenFile {D P2}.
Arguments FileWrite {D P2}.
Arguments CloseFile {D P2}.
Arguments TypeError {D P2 Err}.
Arguments DivisionByZero {D P2 Err}.
Arguments Failed {D P2 Err}.

(** ** The other views of [app.py], and the requests a view sends *)

Module Views.
Section App.
Context {Exc Block Transactions Transaction Blocks Stats Html : Type}.

(** Keyword arguments handed to [render_template]. *)
Inductive context : Type :=
  | IndexCtx (blocks : Blocks) (stats : Stats)
  | BlockCtx (block : Block) (transactions : Transactions)
  | TransactionCtx (transaction : Transaction).

(** A call of the [rpc] client. *)
Inductive request : Type :=
  | GetLastNBlocks (n : string)
  | GetBasicStatistics
  | GetBlock (header_hash : string)
  | GetBlockTransactions (header_hash : string)
  | GetTransaction (transaction_hash : string).

Variable get_last_n_blocks : string → result Exc Blocks.
Variable get_basic_statistics : result Exc Stats.
Variable get_block : string → result Exc Block.
Variable get_block_transactions : string → result Exc Transactions.
Variable get_transaction : string → result Exc Transaction.
Variable render_template : string → context → result Exc Html.

(** A view: from the requests sent so far to its outcome and the requests
    sent after it. *)
Definition view (A : Type) : Type := list request → result Exc A * list request.

Definition ret {A : Type} (a : A) : view A := λ sent, (Ok a, sent).

Definition bind {A B : Type} (m : view A) (k : A → view B) : view B :=
  λ sent, match m sent with
          | (Ok a, sent1) => k a sent1
          | (Raise e, sent1) => (Raise e, sent1)
          end.

(** [await rpc.f(args)]: the request is sent, then answered. *)
Definition await {A : Type} (r : request) (answer : result Exc A) : view A :=
  λ sent, (answer, sent ++ [r]).

(** A call that sends nothing ([render_template]). *)
Definition lift {A : Type} (r : result Exc A) : view A := λ sent, (r, sent).

(** [try: body except Exception: handler]. *)
Definition try_except {A : Type} (body handler : view A) : view A :=
  λ sent, match body sent with
          | (Ok a, sent1) => (Ok a, sent1)
          | (Raise _, sent1) => handler sent1
          end.

(** [index], lines 26-29. *)
Definition index : view Html :=
  bind (await (GetLastNBlocks "10") (get_last_n_blocks "10")) (λ blocks,
  bind (await GetBasicStatistics get_basic_statistics) (λ stats,
  lift (render_template "index.html" (IndexCtx blocks stats)))).

(** [block], lines 43-46. *)
Definition block (header_hash : string) : view Html :=
  bind (await (GetBlock header_hash) (get_block header_hash)) (λ block,
  bind (await (GetBlockTransactions header_hash) (get_block_transactions header_hash))
    (λ transactions,
  lift (render_template "block.html" (BlockCtx block transactions)))).

(** [transaction], lines 49-51. *)
Definition transaction (transaction_hash : string) : view Html :=
  bind (await (GetTransaction transaction_hash) (get_transaction transaction_hash))
    (λ transaction,
  lift (render_template "transaction.html" (TransactionCtx transaction))).

(** [search], lines 32-40, with the requests it sends. *)
Definition search (search_hash : string) : view Html :=
  try_except
    (bind (await (GetBlock search_hash) (get_block search_hash)) (λ block,
     bind (await (GetBlockTransactions search_hash) (get_block_transactions search_hash))
       (λ transactions,
     lift (render_template "block.html" (BlockCtx block transactions)))))
    (bind (await (GetTransaction search_hash) (get_transaction search_hash))
       (λ transaction,
     lift (render_template "transaction.html" (TransactionCtx transaction)))).
End App.
End Views.

(** ** What a request is answered with *)

Module Serving.
Section App.
Context {Exc Block Transactions Transaction Html : Type}.
Variable render_template :
  string → @Explorer.context Block Transactions Transaction → result Exc Html.
(** The status an exception stands for when it is one of the framework's
    HTTP errors ([NotFound] and the like); [None] for any other exception. *)
Variable http_code : Exc → option nat.
(** The framework's own page for an HTTP error that [app.py] registers no
    handler for. *)
Variable default_page : nat → Html.

(** Modelled from the documentation of Flask, the imported framework, in
    its default configuration: the page a view returns is sent with status
    200; an exception that leaves the view goes to the handler registered
    for it, the one of lines 57-59 for an exception that is not an HTTP
    error (it is wrapped as a 500) or for a 500, the one of lines 53-55 for
    a 404; another HTTP error is answered with the framework's page. *)
Definition respond (view : result Exc Html) : result Exc (Html * nat) :=
  match view with
  | Ok page => Ok (page, 200%nat)
  | Raise e =>
      match http_code e with
      | None => Explorer.page_not_found_500 render_template e
      | Some code =>
          if decide (code = 404%nat) then Explorer.page_not_found_404 render_template e
          else if decide (code = 500%nat)
               then Explorer.page_not_found_500 render_template e
               else Ok (default_page code, code)
      end
  end.
End App.
End Serving.

(** ** Further scripted instances *)

Module Samples.
(** A node for the views: one block, one transaction, no statistics. *)
Definition get_last_n_blocks (n : string) : result string (list string) := Ok ["b10c"].
Definition get_basic_statistics : result string string := Raise "no statistics".
Definition render_template (name : string)
    (c : @Views.context string (list string) string (list string) string)
  : result string string := Ok name.
Definition search : string → Views.view string :=
  Views.search Explorer.Demo.get_block Explorer.Demo.get_block_transactions
    Explorer.Demo.get_transaction render_template.

(** [write] on integer amounts and integer clock readings. *)
Definition write_to (outside : effect Scripted.sdarkie Z → option string)
    (start_time end_time : option Z) (t : @DarkfiTable Z Scripted.sdarkie Z Z) :=
  @write Z Scripted.sdarkie Z Z Z string Z.sub Z.div (λ _, "0:00:00") (λ _, "7")
         outside start_time end_time t.

(** An outside where every call goes through. *)
Definition write := write_to (λ _, None).


(** What the demo node's [search] is answered with; its exceptions are
    not HTTP errors. *)
Definition respond : result string Explorer.Demo.view → result string (Explorer.Demo.view * nat) :=
  Serving.respond Explorer.Demo.render_template (λ _, None) (λ _, ("", Explorer.NoCtx)).

(** One participant whose stake exceeds the airdrop; it wins both slots. *)
Definition overstaked : list Scripted.sdarkie := [Scripted.fresh 1 105 [true; true]].

(** Three participants with winners [1, 0, 0, 1] over four slots:
    participant 1 wins slots 0 and 3, nobody wins slots 1 and 2. *)
Definition three_darkies : list Scripted.sdarkie :=
  [Scripted.fresh 1 100 [true; false; false; true];
   Scripted.fresh 2 100 [false; false; false; false];
   Scripted.fresh 3 100 [false; false; false; false]].

(** A table in the state [__init__] and [add_darkie] leave it in. *)
Definition fresh_table (airdrop running_time reward : Z) (ds : list Scripted.sdarkie)
  : @DarkfiTable Z Scripted.sdarkie Z Z :=
  foldl (λ t d, add_darkie d t) (init airdrop running_time 0 reward false) ds.
End Samples.

(** ** Vocabulary of the properties *)

(** [ceil(a / b)] for a positive [b]. *)
Definition ceil_div (a b : Z) : Z := (a + b - 1) / b.

(** The exceptions a use of an uncomputed [acc] or of an empty [rewards]
    would raise: [acc] read at line 94, [self.rewards[-1]] read at lines 69
    and 72. *)
Definition uncomputed_use (e : exn) : Prop :=
  match e with
  | UnboundLocalError _ => True
  | IndexError line => line = 69%nat ∨ line = 72%nat
  | _ => False
  end.

(** A result that is not one of those exceptions. *)
Definition computed_before_use {A : Type} (r : result exn A) : Prop :=
  match r with
  | Ok _ => True
  | Raise e => ¬ uncomputed_use e
  end.

(** Lines 82-93 as a function of the slot being resolved: the reward of
    the slot's epoch, the shuffle, the scan for the first participant that
    won the slot, its [resync_stake] and the addition to the supply. *)
Definition resolve_slot `{Number R, Random G, Darkie R G D} (EPOCH_LENGTH : positive)
    (rewards : list R) (resync_slot_id : Z) (s : R * list D * G)
  : result exn (R * list D * G) :=
  let '(Sg, ds, g) := s in
  match py_index rewards (Z.quot resync_slot_id (Z.pos EPOCH_LENGTH)) with
  | None => Raise (IndexError 83)
  | Some resync_reward =>
      let '(ds1, g1) := shuffle ds g in
      found ← first_winner_at resync_slot_id ds1 0;
      match ds1 !! default 0%nat found with
      | None => Raise (IndexError 92)
      | Some d =>
          Ok (Radd Sg resync_reward,
              <[default 0%nat found := resync_stake resync_reward d]> ds1, g1)
      end
  end.

(** The slots a finalization at slot [count] resolves, in the order it
    resolves them: [count - 1] down to [count - merge_length]. *)
Definition resolved_slots (count : Z) (winners : list Z) : list Z :=
  (λ i, count - (i + 1)) <$> arange (Z.of_nat (merge_length winners)).

(** The participant's outcome of the current slot is a win. *)
Definition won_last `{Darkie R G D} (d : D) : Prop := last (won_hist d) = Some true.

(** [acc] is bound and [rewards] is not empty. *)
Definition ready `{Number R} {G D P1 P2 : Type} (fr : @frame R G D P1 P2) : Prop :=
  is_Some (acc_var fr) ∧ rewards (self fr) ≠ [].

(** ** Properties of the error monad and of the loop *)

Section Monad.
Context {E A B : Type}.

Lemma bind_Ok (a : A) (k : A → result E B) : (Ok a ≫= k) = k a.
  Proof. reflexivity. Qed.

Lemma bind_Raise (e : E) (k : A → result E B) : (Raise e ≫= k) = Raise e.
  Proof. reflexivity. Qed.

Lemma bind_inv_Ok (m : result E A) (k : A → result E B) (b : B) :
    m ≫= k = Ok b → ∃ a, m = Ok a ∧ k a = Ok b.
  Proof. destruct m as [a|e]; [eauto | discriminate]. Qed.
End Monad.

(** Splits a hypothesis [m ≫= k = Ok b] into its two steps. *)
Ltac bind_inv H :=
  let a := fresh "a" in
  let Ha := fresh "H" a in
  apply bind_inv_Ok in H; destruct H as (a & Ha & H).

Section Loop.
Context {E S : Type} (body : Z → S → result E S).

Lemma for_each_app (l1 l2 : list Z) (s : S) :
    for_each body (l1 ++ l2) s = s' ← for_each body l1 s; for_each body l2 s'.
  Proof.
    revert s. induction l1 as [|c l1 IH]; intros s; simpl; [done|].
    destruct (body c s) as [s1|e]; simpl; [apply IH | done].
  Qed.

Lemma for_each_snoc (l : list Z) (c : Z) (s : S) :
    for_each body (l ++ [c]) s = s' ← for_each body l s; body c s'.
  Proof.
    rewrite for_each_app. destruct (for_each body l s) as [s1|e]; simpl; [|done].
    by destruct (body c s1).
  Qed.

  (** An invariant of the body is an invariant of the loop. *)
Lemma for_each_invariant (I : S → Prop) (l : list Z) (s s' : S) :
    (∀ c s1 s2, c ∈ l → I s1 → body c s1 = Ok s2 → I s2) →
    I s → for_each body l s = Ok s' → I s'.
  Proof.
    revert s. induction l as [|c l IH]; intros s Hstep Hs Hrun; simpl in Hrun.
    - by inversion Hrun; subst.
    - bind_inv Hrun. apply (IH a); [|by eapply Hstep; [left|..]|done].
      intros c' s1 s2 Hc'. apply Hstep. by right.
  Qed.
End Loop.

Lemma arange_nonpos (n : Z) : n ≤ 0 → arange n = [].
Proof. intros Hn. unfold arange. by replace (Z.to_nat n) with 0%nat by lia. Qed.

Lemma arange_succ (n : Z) : 0 ≤ n → arange (n + 1) = arange n ++ [n].
Proof.
  intros Hn. unfold arange.
  replace (Z.to_nat (n + 1)) with (S (Z.to_nat n)) by lia.
  rewrite seq_S, fmap_app. simpl. by rewrite Z2Nat.id.
Qed.

Lemma arange_split (k n : Z) : 0 ≤ k ≤ n → ∃ rest, arange n = arange k ++ rest.
Proof.
  intros Hk. unfold arange.
  replace (Z.to_nat n) with (Z.to_nat k + Z.to_nat (n - k))%nat by lia.
  rewrite seq_app, fmap_app. eauto.
Qed.

Lemma arange_split_at (k n : Z) :
  0 ≤ k < n → ∃ rest, arange n = arange k ++ k :: rest.
Proof.
  intros Hk. destruct (arange_split (k + 1) n) as [rest Hrest]; [lia|].
  exists rest. rewrite Hrest, arange_succ by lia. by rewrite <- app_assoc.
Qed.

Lemma elem_of_arange (c n : Z) : c ∈ arange n ↔ 0 ≤ c < n.
Proof.
  unfold arange. rewrite list_elem_of_fmap. split.
  - intros (i & -> & Hi). apply elem_of_seq in Hi. lia.
  - intros Hc. exists (Z.to_nat c). split; [lia|]. apply elem_of_seq. lia.
Qed.

Lemma length_arange (n : Z) : 0 ≤ n → Z.of_nat (length (arange n)) = n.
Proof. intros Hn. unfold arange. rewrite length_fmap, length_seq. lia. Qed.

Lemma ceil_div_spec (a b : Z) : 0 < b → (ceil_div a b - 1) * b < a ≤ ceil_div a b * b.
Proof.
  intros Hb. unfold ceil_div.
  pose proof (Z.div_mod (a + b - 1) b ltac:(lia)) as Hdm.
  pose proof (Z.mod_pos_bound (a + b - 1) b Hb) as Hmod. nia.
Qed.

Lemma ceil_div_eq (a b : Z) :
  0 < b → ceil_div a b = a / b + (if decide (a `mod` b = 0) then 0 else 1).
Proof.
  intros Hb. unfold ceil_div.
  pose proof (Z.div_mod a b ltac:(lia)) as Hdm.
  pose proof (Z.mod_pos_bound a b Hb) as Hmod.
  symmetry. destruct (decide (a `mod` b = 0)) as [Hz|Hnz].
  - apply Z.div_unique with (r := b - 1); lia.
  - apply Z.div_unique with (r := a `mod` b - 1); lia.
Qed.

Lemma ceil_div_succ (a b : Z) :
  0 < b → ceil_div (a + 1) b = ceil_div a b + (if decide (a `mod` b = 0) then 1 else 0).
Proof.
  intros Hb. rewrite (ceil_div_eq a b Hb). unfold ceil_div.
  replace (a + 1 + b - 1) with (a + 1 * b) by lia.
  rewrite Z.div_add by lia. destruct (decide (a `mod` b = 0)); lia.
Qed.

(** ** Properties of the resync scan *)

Lemma count_until_one_spec (l : list Z) (m : nat) :
  ∃ pre rest, l = pre ++ rest ∧ Forall (λ w, w ≠ 1) pre ∧
    (rest = [] ∨ ∃ rest', rest = 1 :: rest') ∧
    count_until_one l m = (m + length pre)%nat.
Proof.
  revert m. induction l as [|i l IH]; intros m; simpl.
  - exists [], []. repeat split; [constructor | by left | simpl; lia].
  - destruct (decide (i ≠ 1)) as [Hi|Hi].
    + destruct (IH (S m)) as (pre & rest & -> & Hpre & Hrest & Hlen).
      exists (i :: pre), rest. repeat split; [by constructor | done | simpl; lia].
    + apply dec_stable in Hi as ->.
      exists [], (1 :: l). repeat split; [constructor | right; eauto | simpl; lia].
Qed.

(** [merge_length] is the number of consecutive entries different from 1
    met when [winners] is read backward from the entry before the last: the
    reversed earlier entries split into a run [pre] without any 1, of length
    [merge_length], and a rest that is empty or starts with 1. *)
Lemma merge_length_spec (ws : list Z) :
  ∃ pre rest,
    rev (removelast ws) = pre ++ rest ∧ Forall (λ w, w ≠ 1) pre ∧
    (rest = [] ∨ ∃ rest', rest = 1 :: rest') ∧
    merge_length ws = length pre.
Proof.
  unfold merge_length.
  destruct (count_until_one_spec (rev (removelast ws)) 0) as (pre & rest & ? & ? & ? & ?).
  exists pre, rest. by repeat split.
Qed.

(** ** Properties of the slot loop *)

Section LotteryProps.
Context {R G D P1 P2 : Type}.
Context `{!Number R, !Random G, !Darkie R G D}.
Context {primary : PID R P1} {secondary : PID R P2}.
Variable EPOCH_LENGTH : positive.

Implicit Types (t : @DarkfiTable R D P1 P2) (fr : @frame R G D P1 P2).
Implicit Types (o : @slot_out R G D P1 P2) (dbg hp : bool) (count n k : Z).

Lemma run_slots_succ dbg hp k fr :
  0 ≤ k →
  run_slots EPOCH_LENGTH dbg hp (k + 1) fr
  = frk ← run_slots EPOCH_LENGTH dbg hp k fr; slot EPOCH_LENGTH dbg hp k frk.
Proof. intros Hk. unfold run_slots. rewrite arange_succ by done. apply for_each_snoc. Qed.

Lemma run_slots_prefix dbg hp k n fr frn :
  0 ≤ k ≤ n → run_slots EPOCH_LENGTH dbg hp n fr = Ok frn →
  ∃ frk, run_slots EPOCH_LENGTH dbg hp k fr = Ok frk.
Proof.
  intros Hk Hrun. unfold run_slots in *.
  destruct (arange_split k n Hk) as [rest Hrest]. rewrite Hrest, for_each_app in Hrun.
  bind_inv Hrun. eauto.
Qed.

Lemma run_slots_at dbg hp k n fr frn :
  0 ≤ k < n → run_slots EPOCH_LENGTH dbg hp n fr = Ok frn →
  ∃ frk frk1, run_slots EPOCH_LENGTH dbg hp k fr = Ok frk ∧
    slot EPOCH_LENGTH dbg hp k frk = Ok frk1 ∧
    run_slots EPOCH_LENGTH dbg hp (k + 1) fr = Ok frk1.
Proof.
  intros Hk Hrun.
  destruct (run_slots_prefix dbg hp (k + 1) n fr frn) as [frk1 H1]; [lia|done|].
  pose proof H1 as H2. rewrite run_slots_succ in H2 by lia. bind_inv H2. eauto.
Qed.

Lemma run_slots_abort dbg hp k n fr frk e :
  0 ≤ k < n → run_slots EPOCH_LENGTH dbg hp k fr = Ok frk →
  slot EPOCH_LENGTH dbg hp k frk = Raise e →
  run_slots EPOCH_LENGTH dbg hp n fr = Raise e.
Proof.
  intros Hk Hrun Hs. unfold run_slots in *.
  destruct (arange_split_at k n Hk) as [rest Hrest].
  rewrite Hrest, for_each_app, Hrun. simpl. by rewrite Hs.
Qed.

(** The secondary controller after line 42. *)
Local Abbreviation sec_after dbg fr :=
  (pid_clipped (Rint (feedback fr)) dbg (secondary_pid (self fr))).2.

Lemma slot_work_eq dbg hp count fr :
  slot_work EPOCH_LENGTH dbg hp count fr
  = w ← count_winners (slot_ran dbg hp count fr).1.1 0;
    s ← finalize EPOCH_LENGTH count (slot_rewards EPOCH_LENGTH dbg count fr)
          (winners (self fr) ++ [w])
          (Sigma (self fr), (slot_ran dbg hp count fr).1.1, (slot_ran dbg hp count fr).2);
    Ok (mkOut
          (mkFrame
             (mkTable s.1.1 s.1.2 (running_time (self fr)) (sec_after dbg fr)
                (epoch_boundary EPOCH_LENGTH dbg count (sec_after dbg fr) fr).1.2
                (debug (self fr)) (slot_rewards EPOCH_LENGTH dbg count fr)
                (winners (self fr) ++ [w]))
             w (epoch_boundary EPOCH_LENGTH dbg count (sec_after dbg fr) fr).1.1 s.2)
          (slot_ran dbg hp count fr).1.2).
Proof.
  unfold slot_work, slot_ran, slot_rewards.
  destruct (pid_clipped (Rint (feedback fr)) dbg (secondary_pid (self fr))) as [f sec].
  cbn -[finalize epoch_boundary run_darkies count_winners].
  destruct (epoch_boundary EPOCH_LENGTH dbg count sec fr) as [[acc1 pri] rewards1].
  cbn -[finalize run_darkies count_winners].
  destruct (run_darkies (Sigma (self fr)) (feedback fr) f count hp (darkies (self fr))
              (Rint 0) (rng fr)) as [[ds1 ts] g1].
  cbn -[finalize count_winners].
  destruct (count_winners ds1 0) as [w|e]; cbn -[finalize]; [|done].
  by destruct (finalize EPOCH_LENGTH count rewards1 (winners (self fr) ++ [w])
                 (Sigma (self fr), ds1, g1)) as [[[Sg2 ds2] g2]|e].
Qed.

Lemma slot_work_inv dbg hp count fr o :
  slot_work EPOCH_LENGTH dbg hp count fr = Ok o →
  ∃ w, count_winners (slot_ran dbg hp count fr).1.1 0 = Ok w ∧
    finalize EPOCH_LENGTH count (slot_rewards EPOCH_LENGTH dbg count fr)
      (winners (self fr) ++ [w])
      (Sigma (self fr), (slot_ran dbg hp count fr).1.1, (slot_ran dbg hp count fr).2)
    = Ok (Sigma (self (out_frame o)), darkies (self (out_frame o)), rng (out_frame o)) ∧
    rewards (self (out_frame o)) = slot_rewards EPOCH_LENGTH dbg count fr ∧
    winners (self (out_frame o)) = winners (self fr) ++ [w] ∧
    feedback (out_frame o) = w ∧
    acc_var (out_frame o)
    = (epoch_boundary EPOCH_LENGTH dbg count (sec_after dbg fr) fr).1.1 ∧
    out_total_stake o = (slot_ran dbg hp count fr).1.2 ∧
    running_time (self (out_frame o)) = running_time (self fr).
Proof.
  rewrite slot_work_eq. intros Hw. bind_inv Hw. bind_inv Hw.
  destruct a0 as [[Sg2 ds2] g2]. injection Hw as <-.
  exists a. split; [done|]. split; [exact Ha0|]. by repeat split.
Qed.

Lemma slot_inv dbg hp count fr fr' :
  slot EPOCH_LENGTH dbg hp count fr = Ok fr' →
  ∃ o, slot_work EPOCH_LENGTH dbg hp count fr = Ok o ∧ out_frame o = fr' ∧
    is_Some (acc_var fr') ∧
    Rle (round1 (out_total_stake o)) (round1 (Sigma (self fr'))).
Proof.
  unfold slot, slot_check. intros Hs. bind_inv Hs. exists a. split; [done|].
  destruct (acc_var (out_frame a)) as [x|] eqn:Hacc; [|done].
  destruct (Rleb _ _) eqn:Hle; [|done]. inversion Hs; subst fr'.
  by rewrite Hacc.
Qed.

Lemma epoch_boundary_at dbg count sec fr :
  count `mod` Z.pos EPOCH_LENGTH = 0 →
  epoch_boundary EPOCH_LENGTH dbg count sec fr
  = (Some (acc sec), (pid_clipped (acc sec) dbg (primary_pid (self fr))).2,
     rewards (self fr) ++ [(pid_clipped (acc sec) dbg (primary_pid (self fr))).1]).
Proof.
  intros Hc. unfold epoch_boundary. rewrite decide_True by done.
  by destruct (pid_clipped (acc sec) dbg (primary_pid (self fr))).
Qed.

Lemma epoch_boundary_off dbg count sec fr :
  count `mod` Z.pos EPOCH_LENGTH ≠ 0 →
  epoch_boundary EPOCH_LENGTH dbg count sec fr
  = (acc_var fr, primary_pid (self fr), rewards (self fr)).
Proof. intros Hc. unfold epoch_boundary. by rewrite decide_False by done. Qed.

(** *** Shape of the rewards sequence *)

Lemma slot_rewards_cases dbg count fr :
  slot_rewards EPOCH_LENGTH dbg count fr
  = if decide (count `mod` Z.pos EPOCH_LENGTH = 0)
    then rewards (self fr)
         ++ [(pid_clipped (acc (sec_after dbg fr)) dbg (primary_pid (self fr))).1]
    else rewards (self fr).
Proof.
  unfold slot_rewards. destruct (decide (count `mod` Z.pos EPOCH_LENGTH = 0)) as [Hc|Hc].
  - by rewrite epoch_boundary_at.
  - by rewrite epoch_boundary_off.
Qed.

Lemma slot_rewards_step dbg hp count fr fr' :
  slot EPOCH_LENGTH dbg hp count fr = Ok fr' →
  rewards (self fr') = slot_rewards EPOCH_LENGTH dbg count fr.
Proof.
  intros Hs. apply slot_inv in Hs as (o & Hw & <- & _).
  by apply slot_work_inv in Hw as (w & _ & _ & Hr & _).
Qed.

Lemma run_slots_0 dbg hp fr : run_slots EPOCH_LENGTH dbg hp 0 fr = Ok fr.
Proof. reflexivity. Qed.

Lemma rewards_length_nat dbg hp (m : nat) fr0 frm :
  run_slots EPOCH_LENGTH dbg hp (Z.of_nat m) fr0 = Ok frm →
  ∃ added, rewards (self frm) = rewards (self fr0) ++ added ∧
    Z.of_nat (length added) = ceil_div (Z.of_nat m) (Z.pos EPOCH_LENGTH).
Proof.
  revert frm. induction m as [|m IH]; intros frm Hrun.
  - rewrite run_slots_0 in Hrun. injection Hrun as <-. exists []. split.
    + by rewrite app_nil_r.
    + unfold ceil_div. simpl length. rewrite Z.div_small; lia.
  - rewrite Nat2Z.inj_succ, <- Z.add_1_r in Hrun |- *.
    rewrite run_slots_succ in Hrun by lia.
    bind_inv Hrun. destruct (IH a Ha) as (added & Hadd & Hlen).
    apply slot_rewards_step in Hrun. rewrite slot_rewards_cases in Hrun.
    rewrite ceil_div_succ by lia.
    destruct (decide (Z.of_nat m `mod` Z.pos EPOCH_LENGTH = 0)).
    + eexists (added ++ [_]). rewrite Hrun, Hadd, <- app_assoc. split; [done|].
      rewrite length_app. simpl. lia.
    + exists added. rewrite Hrun. split; [done | lia].
Qed.

(** C5. In a run of [n] slots the rewards sequence only grows at its end,
    by [ceil(n / EPOCH_LENGTH)] entries in all (so that many entries when it
    starts empty); slot [k] appends exactly one reward when
    [k mod EPOCH_LENGTH = 0] and leaves the sequence as it is otherwise. *)
Theorem rewards_shape dbg hp n fr0 frn :
  0 ≤ n →
  run_slots EPOCH_LENGTH dbg hp n fr0 = Ok frn →
  (∃ added, rewards (self frn) = rewards (self fr0) ++ added ∧
     Z.of_nat (length added) = ceil_div n (Z.pos EPOCH_LENGTH)) ∧
  (rewards (self fr0) = [] →
     Z.of_nat (length (rewards (self frn))) = ceil_div n (Z.pos EPOCH_LENGTH)) ∧
  (∀ k, 0 ≤ k < n →
     ∃ frk frk1, run_slots EPOCH_LENGTH dbg hp k fr0 = Ok frk ∧
       run_slots EPOCH_LENGTH dbg hp (k + 1) fr0 = Ok frk1 ∧
       if decide (k `mod` Z.pos EPOCH_LENGTH = 0)
       then ∃ reward, rewards (self frk1) = rewards (self frk) ++ [reward]
       else rewards (self frk1) = rewards (self frk)).
Proof.
  intros Hn Hrun.
  assert (∃ added, rewards (self frn) = rewards (self fr0) ++ added ∧
     Z.of_nat (length added) = ceil_div n (Z.pos EPOCH_LENGTH)) as Hadded.
  { rewrite <- (Z2Nat.id n) in Hrun |- * by done. by eapply rewards_length_nat. }
  split; [done|]. split.
  - intros Hempty. destruct Hadded as (added & -> & <-). by rewrite Hempty.
  - intros k Hk. destruct (run_slots_at dbg hp k n fr0 frn Hk Hrun) as (frk & frk1 & Hk0 & Hs & Hk1).
    exists frk, frk1. split; [done|]. split; [done|].
    apply slot_rewards_step in Hs. rewrite slot_rewards_cases in Hs.
    destruct (decide (k `mod` Z.pos EPOCH_LENGTH = 0)); eauto.
Qed.

(** *** No use of [acc] or [rewards[-1]] before the first epoch boundary *)

Lemma for_each_raise {E S : Type} (body : Z → S → result E S) (l : list Z) (s : S) (e : E) :
  for_each body l s = Raise e → ∃ c s1, c ∈ l ∧ body c s1 = Raise e.
Proof.
  revert s. induction l as [|c l IH]; intros s Hrun; simpl in Hrun; [done|].
  destruct (body c s) as [s1|e1] eqn:Hb; simpl in Hrun.
  - destruct (IH s1 Hrun) as (c' & s' & Hc' & Hb'). exists c', s'. split; [by right | done].
  - injection Hrun as ->. exists c, s. split; [by left | done].
Qed.

Lemma count_winners_raise (ds : list D) (w : Z) (e : exn) :
  count_winners ds w = Raise e → e = IndexError 62.
Proof.
  revert w. induction ds as [|d ds IH]; intros w Hc; simpl in Hc; [done|].
  destruct (last (won_hist d)); [by eapply IH | by injection Hc].
Qed.

Lemma pay_winner_raise (rs : list R) (ds : list D) (e : exn) :
  pay_winner rs ds = Raise e → rs ≠ [] → e = IndexError 68.
Proof.
  intros Hp Hrs. induction ds as [|d ds IH] in e, Hp |- *; simpl in Hp; [done|].
  destruct (last (won_hist d)) as [[|]|]; [| |by injection Hp].
  - destruct (last rs) eqn:Hlast; [done|]. by apply last_None in Hlast.
  - destruct (pay_winner rs ds) as [ds1|e1]; simpl in Hp; [done|].
    injection Hp as <-. by apply IH.
Qed.

Lemma first_winner_at_raise (sl : Z) (ds : list D) (i : nat) (e : exn) :
  first_winner_at sl ds i = Raise e → e = IndexError 89.
Proof.
  revert i. induction ds as [|d ds IH]; intros i Hf; simpl in Hf; [done|].
  destruct (py_index (won_hist d) sl) as [[|]|]; [done | by eapply IH | by injection Hf].
Qed.

Lemma resync_one_raise count (rs : list R) (i : Z) (s : R * list D * G) (e : exn) :
  resync_one EPOCH_LENGTH count rs i s = Raise e → ¬ uncomputed_use e.
Proof.
  destruct s as [[Sg ds] g]. unfold resync_one.
  destruct (py_index rs _) as [r|]; [|intros [= <-]; simpl; lia].
  destruct (shuffle ds g) as [ds1 g1].
  destruct (first_winner_at _ ds1 0) as [found|e1] eqn:Hf; simpl.
  - destruct (ds1 !! default 0%nat found); [done|]. intros [= <-]; simpl; lia.
  - intros [= <-]. apply first_winner_at_raise in Hf as ->. simpl; lia.
Qed.

Lemma finalize_raise count (rs : list R) (ws : list Z) (s : R * list D * G) (e : exn) :
  finalize EPOCH_LENGTH count rs ws s = Raise e → rs ≠ [] → ¬ uncomputed_use e.
Proof.
  destruct s as [[Sg ds] g]. unfold finalize. intros Hf Hrs.
  destruct (decide (last ws = Some 1)); [|done].
  destruct (pay_winner rs ds) as [ds1|e1] eqn:Hp; simpl in Hf.
  - destruct (last rs) as [r|] eqn:Hlast; [|by apply last_None in Hlast].
    apply for_each_raise in Hf as (c & s1 & _ & Hc). by eapply resync_one_raise.
  - injection Hf as <-. apply pay_winner_raise in Hp as ->; [|done]. simpl; lia.
Qed.

Lemma slot_work_raise dbg hp count fr e :
  slot_work EPOCH_LENGTH dbg hp count fr = Raise e →
  slot_rewards EPOCH_LENGTH dbg count fr ≠ [] → ¬ uncomputed_use e.
Proof.
  rewrite slot_work_eq. intros Hw Hrs.
  destruct (count_winners _ 0) as [w|e1] eqn:Hc; simpl in Hw.
  - destruct (finalize _ _ _ _ _) as [s|e2] eqn:Hf; simpl in Hw; [done|].
    injection Hw as <-. by eapply finalize_raise.
  - injection Hw as <-. apply count_winners_raise in Hc as ->. simpl; lia.
Qed.

Lemma slot_safe dbg hp count fr :
  count `mod` Z.pos EPOCH_LENGTH = 0 ∨ ready fr →
  computed_before_use (slot EPOCH_LENGTH dbg hp count fr) ∧
  ∀ fr', slot EPOCH_LENGTH dbg hp count fr = Ok fr' → ready fr'.
Proof.
  intros Hready.
  assert (slot_rewards EPOCH_LENGTH dbg count fr ≠ []) as Hrs.
  { rewrite slot_rewards_cases. destruct (decide _) as [Hc|Hc].
    - by destruct (rewards (self fr)).
    - destruct Hready as [?|[_ ?]]; done. }
  split.
  - unfold slot. destruct (slot_work _ _ _ _ _) as [o|e] eqn:Hw; simpl.
    + apply slot_work_inv in Hw as (w & _ & _ & _ & _ & _ & Hacc & _).
      unfold slot_check. rewrite Hacc.
      destruct (decide (count `mod` Z.pos EPOCH_LENGTH = 0)) as [Hc|Hc].
      * rewrite epoch_boundary_at by done. simpl. by destruct (Rleb _ _); simpl; [|intros []].
      * rewrite epoch_boundary_off by done. simpl.
        destruct Hready as [?|[[x Hx] _]]; [done|]. rewrite Hx. by destruct (Rleb _ _); simpl; [|intros []].
    + by eapply slot_work_raise.
  - intros fr' Hs. pose proof (slot_rewards_step _ _ _ _ _ Hs) as Hr.
    apply slot_inv in Hs as (o & _ & _ & Hsome & _). split; [done|]. by rewrite Hr.
Qed.

Lemma for_each_slot_safe dbg hp (l : list Z) fr :
  ready fr →
  computed_before_use (for_each (slot EPOCH_LENGTH dbg hp) l fr) ∧
  ∀ fr', for_each (slot EPOCH_LENGTH dbg hp) l fr = Ok fr' → ready fr'.
Proof.
  revert fr. induction l as [|c l IH]; intros fr Hready; simpl.
  - split; [done|]. by intros fr' [= <-].
  - destruct (slot_safe dbg hp c fr (or_intror Hready)) as [Hsafe Hnext].
    destruct (slot EPOCH_LENGTH dbg hp c fr) as [fr1|e]; simpl; [|done].
    by apply IH, Hnext.
Qed.

Lemma arange_cases (n : Z) : (n ≤ 0 ∧ arange n = []) ∨ (1 ≤ n ∧ ∃ rest, arange n = 0 :: rest).
Proof.
  destruct (decide (n ≤ 0)) as [Hn|Hn].
  - left. split; [done | by apply arange_nonpos].
  - right. split; [lia|]. destruct (arange_split_at 0 n) as [rest Hrest]; [lia|].
    exists rest. exact Hrest.
Qed.

Lemma run_slots_safe dbg hp n fr :
  computed_before_use (run_slots EPOCH_LENGTH dbg hp n fr) ∧
  ∀ fr', 1 ≤ n → run_slots EPOCH_LENGTH dbg hp n fr = Ok fr' → ready fr'.
Proof.
  unfold run_slots. destruct (arange_cases n) as [[Hn ->]|[Hn [rest ->]]]; simpl.
  - split; [done | lia].
  - destruct (slot_safe dbg hp 0 fr (or_introl eq_refl)) as [Hsafe Hnext].
    destruct (slot EPOCH_LENGTH dbg hp 0 fr) as [fr1|e]; simpl; [|done].
    destruct (for_each_slot_safe dbg hp rest fr1) as [Hsafe' Hnext']; [by apply Hnext|].
    split; [done|]. intros fr' _. apply Hnext'.
Qed.

Lemma div_len_raise (line : nat) (x : R) (m : nat) (e : exn) :
  div_len line x m = Raise e → e = ZeroDivisionError line ∧ m = 0%nat.
Proof. unfold div_len. destruct (decide (m = 0%nat)); [by intros [= <-] | done]. Qed.

Lemma summaries_raise t e :
  summaries t = Raise e → ∃ line, e = ZeroDivisionError line.
Proof.
  unfold summaries, avg_stake_ratio, avg_apy, avg_apr. intros Hs.
  repeat match type of Hs with
  | context [div_len ?l ?x ?m] =>
      let H := fresh "H" in
      destruct (div_len l x m) eqn:H; simpl in Hs;
      [|injection Hs as <-; apply div_len_raise in H as [-> _]; eauto]
  end.
  done.
Qed.

(** C7. The boundary branch runs on slot 0, so no run ever reads [acc]
    unbound (line 94) or takes [self.rewards[-1]] of an empty sequence
    (lines 69 and 72): neither the slot loop nor [background] ends in one of
    these exceptions. After a loop of at least one slot [acc] is bound and
    [rewards] is not empty, and a slot that is not an epoch boundary keeps
    the [acc] it was given. *)
Theorem first_epoch_boundary_safety dbg hp :
  (∀ n fr0, computed_before_use (run_slots EPOCH_LENGTH dbg hp n fr0)) ∧
  (∀ rand_running_time t (g : G),
     computed_before_use (background EPOCH_LENGTH rand_running_time dbg hp t g)) ∧
  (∀ n fr0 frn, 1 ≤ n → run_slots EPOCH_LENGTH dbg hp n fr0 = Ok frn →
     is_Some (acc_var frn) ∧ rewards (self frn) ≠ []) ∧
  (∀ count fr o, count `mod` Z.pos EPOCH_LENGTH ≠ 0 →
     slot_work EPOCH_LENGTH dbg hp count fr = Ok o →
     acc_var (out_frame o) = acc_var fr).
Proof.
  split; [intros; apply run_slots_safe|]. split; [|split].
  - intros rrt t g. unfold background.
    destruct (enter rrt dbg t g) as [fr0|e] eqn:He; simpl.
    + pose proof (proj1 (run_slots_safe dbg hp (running_time (self fr0)) fr0)) as Hsafe.
      destruct (run_slots _ _ _ _ fr0) as [fr|e]; simpl; [|done].
      destruct (summaries (self fr)) as [res|e] eqn:Hs; simpl; [done|].
      apply summaries_raise in Hs as [line ->]. by intros [].
    + unfold enter in He. destruct rrt; simpl in He; [|done].
      destruct (decide (1 ≤ running_time t)); simpl in He.
      * by destruct (randint 1 (running_time t) g).
      * injection He as <-. by intros [].
  - intros n fr0 frn Hn Hrun. by apply (proj2 (run_slots_safe dbg hp n fr0)).
  - intros count fr o Hc Hw.
    apply slot_work_inv in Hw as (w & _ & _ & _ & _ & _ & Hacc & _).
    by rewrite Hacc, epoch_boundary_off.
Qed.

(** *** The end-of-slot check *)

Lemma run_darkies_total (Sg : R) (fb : Z) (f : R) count hp (ds : list D) (ts : R) (g : G) :
  (run_darkies Sg fb f count hp ds ts g).1.2
  = foldl Radd ts (stake <$> (run_darkies Sg fb f count hp ds ts g).1.1).
Proof.
  revert ts g. induction ds as [|d ds IH]; intros ts g; simpl; [done|].
  destruct (run hp (set_sigma_feedback Sg fb f count hp d) g) as [d1 g1].
  specialize (IH (Radd ts (stake d1)) g1).
  by destruct (run_darkies Sg fb f count hp ds (Radd ts (stake d1)) g1) as [[ds1 ts1] g2].
Qed.

Lemma slot_ran_total dbg hp count fr :
  (slot_ran dbg hp count fr).1.2 = Rsum (stake <$> (slot_ran dbg hp count fr).1.1).
Proof. apply run_darkies_total. Qed.

Lemma slot_work_acc_bound dbg hp count fr o :
  count `mod` Z.pos EPOCH_LENGTH = 0 ∨ ready fr →
  slot_work EPOCH_LENGTH dbg hp count fr = Ok o → is_Some (acc_var (out_frame o)).
Proof.
  intros Hready Hw. apply slot_work_inv in Hw as (w & _ & _ & _ & _ & _ & -> & _).
  destruct (decide (count `mod` Z.pos EPOCH_LENGTH = 0)) as [Hc|Hc].
  - rewrite epoch_boundary_at by done. by eexists.
  - rewrite epoch_boundary_off by done. by destruct Hready as [?|[? _]].
Qed.

Lemma run_slots_ready dbg hp k fr0 frk :
  0 ≤ k → run_slots EPOCH_LENGTH dbg hp k fr0 = Ok frk →
  k `mod` Z.pos EPOCH_LENGTH = 0 ∨ ready frk.
Proof.
  intros Hk Hrun. destruct (decide (k = 0)) as [->|Hk0]; [by left|].
  right. apply (proj2 (run_slots_safe dbg hp k fr0)); [lia | done].
Qed.

(** What the check of line 96 compares. At every slot [k] of a run of [n]
    slots: if the run completes, then
    slot [k] passed the check of line 96, where [total_stake] is the sum of
    the stakes taken right after the per-participant update and [Sigma] is
    the supply after the slot's payout and resync; and if the check fails at
    slot [k] the whole run ends there with the AssertionError of line 96. *)
Theorem stake_supply_check dbg hp n fr0 k :
  0 ≤ k < n →
  (∀ frn, run_slots EPOCH_LENGTH dbg hp n fr0 = Ok frn →
     ∃ frk o, run_slots EPOCH_LENGTH dbg hp k fr0 = Ok frk ∧
       slot_work EPOCH_LENGTH dbg hp k frk = Ok o ∧
       run_slots EPOCH_LENGTH dbg hp (k + 1) fr0 = Ok (out_frame o) ∧
       out_total_stake o = Rsum (stake <$> (slot_ran dbg hp k frk).1.1) ∧
       Rle (round1 (out_total_stake o)) (round1 (Sigma (self (out_frame o))))) ∧
  (∀ frk o, run_slots EPOCH_LENGTH dbg hp k fr0 = Ok frk →
     slot_work EPOCH_LENGTH dbg hp k frk = Ok o →
     Rleb (round1 (out_total_stake o)) (round1 (Sigma (self (out_frame o)))) = false →
     run_slots EPOCH_LENGTH dbg hp n fr0 = Raise (AssertionError 96)).
Proof.
  intros Hk. split.
  - intros frn Hrun.
    destruct (run_slots_at dbg hp k n fr0 frn Hk Hrun) as (frk & frk1 & Hk0 & Hs & Hk1).
    apply slot_inv in Hs as (o & Hw & <- & _ & Hle).
    exists frk, o. repeat split; try done.
    pose proof Hw as Hw'. apply slot_work_inv in Hw' as (w & _ & _ & _ & _ & _ & _ & -> & _).
    apply slot_ran_total.
  - intros frk o Hk0 Hw Hle. apply (run_slots_abort dbg hp k n fr0 frk); [done..|].
    unfold slot. rewrite Hw. simpl. unfold slot_check.
    destruct (slot_work_acc_bound dbg hp k frk o) as [x ->]; [|done|].
    + apply (run_slots_ready dbg hp k fr0); [lia | done].
    + by rewrite Hle.
Qed.

(** *** Payout of a finalizing slot *)

Lemma count_winners_ge (ds : list D) (w0 w : Z) : count_winners ds w0 = Ok w → w0 ≤ w.
Proof.
  revert w0. induction ds as [|d ds IH]; intros w0 Hc; simpl in Hc.
  - injection Hc as <-. lia.
  - destruct (last (won_hist d)) as [b|]; [|done]. apply IH in Hc. destruct b; simpl in Hc; lia.
Qed.

Lemma count_winners_none (ds : list D) (w0 : Z) :
  count_winners ds w0 = Ok w0 → ∀ j d, ds !! j = Some d → ¬ won_last d.
Proof.
  revert w0. induction ds as [|d ds IH]; intros w0 Hc j d' Hj; [done|]. simpl in Hc.
  destruct (last (won_hist d)) as [b|] eqn:Hb; [|done]. destruct b; simpl in Hc.
  - apply count_winners_ge in Hc. lia.
  - rewrite Z.add_0_r in Hc. destruct j as [|j]; simpl in Hj.
    + injection Hj as <-. unfold won_last. by rewrite Hb.
    + by eapply IH.
Qed.

Lemma count_winners_one (ds : list D) (w0 : Z) :
  count_winners ds w0 = Ok (w0 + 1) →
  ∃ i d, ds !! i = Some d ∧ won_last d ∧
    (∀ j d', ds !! j = Some d' → won_last d' → j = i) ∧
    ∀ (rs : list R) (r : R), last rs = Some r →
      pay_winner rs ds = Ok (<[i := update_stake r d]> ds).
Proof.
  revert w0. induction ds as [|d ds IH]; intros w0 Hc; simpl in Hc.
  - injection Hc as Hc. lia.
  - destruct (last (won_hist d)) as [b|] eqn:Hb; [|done]. destruct b; simpl in Hc.
    + exists 0%nat, d. split; [done|]. split; [done|]. split.
      * intros [|j] d' Hj Hd'; [done|]. simpl in Hj.
        by destruct (count_winners_none ds (w0 + 1) Hc j d').
      * intros rs r Hr. simpl. by rewrite Hb, Hr.
    + rewrite Z.add_0_r in Hc. destruct (IH w0 Hc) as (i & d0 & Hi & Hd0 & Huniq & Hpay).
      exists (S i), d0. split; [done|]. split; [done|]. split.
      * intros [|j] d' Hj Hd'; simpl in Hj.
        -- injection Hj as <-. unfold won_last in Hd'. by rewrite Hb in Hd'.
        -- f_equal. by eapply Huniq.
      * intros rs r Hr. simpl. by rewrite Hb, (Hpay rs r Hr).
Qed.

(** C3. In a slot that completes its work, with [w] the winner count
    appended to [winners]: when [w] is not 1 the finalization step leaves
    the participants (as they were after the per-participant update) and
    the supply untouched; when [w] is 1 exactly one participant has a win
    as its last outcome, [update_stake(rewards[-1])] is applied to that
    participant and to no other, the supply grows by [rewards[-1]], and the
    resync loop starts from there. *)
Theorem uniqueness_gated_payout dbg hp count fr o :
  slot_work EPOCH_LENGTH dbg hp count fr = Ok o →
  ∃ w, count_winners (slot_ran dbg hp count fr).1.1 0 = Ok w ∧
    last (winners (self (out_frame o))) = Some w ∧
    (w ≠ 1 →
       darkies (self (out_frame o)) = (slot_ran dbg hp count fr).1.1 ∧
       Sigma (self (out_frame o)) = Sigma (self fr)) ∧
    (w = 1 →
       ∃ i d r, (slot_ran dbg hp count fr).1.1 !! i = Some d ∧ won_last d ∧
         (∀ j d', (slot_ran dbg hp count fr).1.1 !! j = Some d' → won_last d' → j = i) ∧
         last (rewards (self (out_frame o))) = Some r ∧
         pay_winner (rewards (self (out_frame o))) (slot_ran dbg hp count fr).1.1
         = Ok (<[i := update_stake r d]> (slot_ran dbg hp count fr).1.1) ∧
         for_each (resync_one EPOCH_LENGTH count (rewards (self (out_frame o))))
           (arange (Z.of_nat (merge_length (winners (self (out_frame o))))))
           (Radd (Sigma (self fr)) r,
            <[i := update_stake r d]> (slot_ran dbg hp count fr).1.1,
            (slot_ran dbg hp count fr).2)
         = Ok (Sigma (self (out_frame o)), darkies (self (out_frame o)),
               rng (out_frame o))).
Proof.
  intros Hw. apply slot_work_inv in Hw as (w & Hc & Hfin & Hr & Hws & _).
  exists w. split; [done|]. split; [by rewrite Hws, last_snoc|].
  rewrite Hr, Hws. unfold finalize in Hfin. rewrite last_snoc in Hfin. split.
  - intros Hw1. rewrite decide_False in Hfin by congruence. by injection Hfin as <- <- _.
  - intros ->. rewrite decide_True in Hfin by done.
    destruct (count_winners_one _ 0 Hc) as (i & d & Hi & Hd & Huniq & Hpay).
    bind_inv Hfin.
    destruct (last (slot_rewards EPOCH_LENGTH dbg count fr)) as [r|] eqn:Hlast; [|done].
    exists i, d, r. rewrite (Hpay _ r Hlast) in Ha |- *. injection Ha as <-.
    by repeat split.
Qed.

(** *** Monotonicity of the supply *)

Lemma py_index_elem {A : Type} (l : list A) (i : Z) (x : A) : py_index l i = Some x → x ∈ l.
Proof.
  unfold py_index. intros Hi. repeat case_decide; [| |done]; by eapply list_elem_of_lookup_2.
Qed.

Section Monotone.
Context `{!NumberOrder R}.
Hypothesis primary_nonneg :
  ∀ (x : R) dbg (p : P1), Rle (Rint 0) (pid_clipped x dbg p).1.

Lemma resync_one_supply count (rs : list R) (i : Z) (s s' : R * list D * G) :
  Forall (Rle (Rint 0)) rs →
  resync_one EPOCH_LENGTH count rs i s = Ok s' → Rle s.1.1 s'.1.1.
Proof.
  destruct s as [[Sg ds] g]. unfold resync_one. intros Hrs Hres.
  destruct (py_index rs _) as [r|] eqn:Hr; [|done].
  destruct (shuffle ds g) as [ds1 g1]. bind_inv Hres.
  destruct (ds1 !! default 0%nat a); [|done]. injection Hres as <-. simpl.
  apply Radd_nonneg. rewrite Forall_forall in Hrs. by eapply Hrs, py_index_elem.
Qed.

Lemma finalize_supply count (rs : list R) (ws : list Z) (s s' : R * list D * G) :
  Forall (Rle (Rint 0)) rs →
  finalize EPOCH_LENGTH count rs ws s = Ok s' → Rle s.1.1 s'.1.1.
Proof.
  destruct s as [[Sg ds] g]. unfold finalize. intros Hrs Hfin.
  destruct (decide (last ws = Some 1)); [|injection Hfin as <-; apply Rle_refl].
  bind_inv Hfin. destruct (last rs) as [r|] eqn:Hlast; [|done]. simpl.
  apply (Rle_trans _ (Radd Sg r)).
  - apply Radd_nonneg. rewrite Forall_forall in Hrs.
    apply Hrs. apply last_Some in Hlast as [l' ->].
    apply elem_of_app. right. by apply list_elem_of_singleton.
  - eapply (for_each_invariant _ (λ s1, Rle (Radd Sg r) s1.1.1) _ (Radd Sg r, a, g));
      [|apply Rle_refl|exact Hfin].
    intros c s1 s2 _ Hs1 Hstep. eapply Rle_trans; [done|]. by eapply resync_one_supply.
Qed.

Lemma slot_supply dbg hp count fr fr' :
  Forall (Rle (Rint 0)) (rewards (self fr)) →
  slot EPOCH_LENGTH dbg hp count fr = Ok fr' →
  Rle (Sigma (self fr)) (Sigma (self fr')) ∧ Forall (Rle (Rint 0)) (rewards (self fr')).
Proof.
  intros Hrs Hs. apply slot_inv in Hs as (o & Hw & <- & _).
  apply slot_work_inv in Hw as (w & _ & Hfin & -> & _).
  assert (Forall (Rle (Rint 0)) (slot_rewards EPOCH_LENGTH dbg count fr)) as Hrs'.
  { rewrite slot_rewards_cases. case_decide; [|done].
    apply Forall_app. split; [done|]. by constructor. }
  split; [|done]. by apply finalize_supply in Hfin.
Qed.

(** C6. With numbers ordered as usual and a primary controller whose
    clipped output is never negative, the supply does not decrease from
    slot to slot: for [k1 <= k2] the supply after [k1] slots of a run is
    at most the supply after [k2] slots. *)
Theorem supply_monotone dbg hp k1 k2 fr0 fr1 fr2 :
  Forall (Rle (Rint 0)) (rewards (self fr0)) →
  0 ≤ k1 ≤ k2 →
  run_slots EPOCH_LENGTH dbg hp k1 fr0 = Ok fr1 →
  run_slots EPOCH_LENGTH dbg hp k2 fr0 = Ok fr2 →
  Rle (Sigma (self fr1)) (Sigma (self fr2)).
Proof.
  intros Hrs Ht H1 H2. unfold run_slots in *.
  set (I := λ (Sg : R) (fr : @frame R G D P1 P2),
              Rle Sg (Sigma (self fr)) ∧ Forall (Rle (Rint 0)) (rewards (self fr))).
  assert (∀ Sg l fra frb, I Sg fra →
            for_each (slot EPOCH_LENGTH dbg hp) l fra = Ok frb → I Sg frb) as Hinv.
  { intros Sg l fra frb Ha Hrun.
    eapply (for_each_invariant _ (I Sg)); [|exact Ha|exact Hrun].
    intros c s1 s2 _ [Hle Hnn] Hstep.
    destruct (slot_supply dbg hp c s1 s2 Hnn Hstep) as [Hle' Hnn'].
    split; [by eapply Rle_trans | done]. }
  destruct (arange_split k1 k2 Ht) as [rest Hrest].
  rewrite Hrest, for_each_app, H1 in H2. simpl in H2.
  assert (I (Sigma (self fr0)) fr1) as [_ Hnn1].
  { eapply Hinv; [|exact H1]. split; [apply Rle_refl | done]. }
  eapply (Hinv (Sigma (self fr1)) rest fr1 fr2); [|done].
  split; [apply Rle_refl | done].
Qed.

End Monotone.

(** *** Summaries of an empty input *)

Lemma div_len_0 (line : nat) (x : R) : div_len line x 0 = Raise (ZeroDivisionError line).
Proof. reflexivity. Qed.

(** C8. When the loop is over and the table has no participant or no
    reward, the summaries raise ZeroDivisionError and [background] ends in
    that exception, so no tuple is returned: an empty [rewards] raises at
    line 99, and with no participant each of [avg_apy], [avg_apr] and
    [avg_stake_ratio] raises at its own division. *)
Theorem empty_input_summaries_raise rand_running_time dbg hp t (g : G) fr0 fr :
  enter rand_running_time dbg t g = Ok fr0 →
  run_slots EPOCH_LENGTH dbg hp (running_time (self fr0)) fr0 = Ok fr →
  darkies (self fr) = [] ∨ rewards (self fr) = [] →
  (∃ line, summaries (self fr) = Raise (ZeroDivisionError line) ∧
     background EPOCH_LENGTH rand_running_time dbg hp t g
     = Raise (ZeroDivisionError line)) ∧
  (rewards (self fr) = [] → summaries (self fr) = Raise (ZeroDivisionError 99)) ∧
  (darkies (self fr) = [] →
     avg_apy (self fr) = Raise (ZeroDivisionError 107) ∧
     avg_apr (self fr) = Raise (ZeroDivisionError 110) ∧
     avg_stake_ratio (self fr) = Raise (ZeroDivisionError 113)).
Proof.
  intros He Hrun Hempty.
  assert (rewards (self fr) = [] → summaries (self fr) = Raise (ZeroDivisionError 99)) as H99.
  { intros Hr. unfold summaries. by rewrite Hr. }
  assert (darkies (self fr) = [] →
     avg_apy (self fr) = Raise (ZeroDivisionError 107) ∧
     avg_apr (self fr) = Raise (ZeroDivisionError 110) ∧
     avg_stake_ratio (self fr) = Raise (ZeroDivisionError 113)) as Hd.
  { intros Hd. unfold avg_apy, avg_apr, avg_stake_ratio. by rewrite Hd. }
  split; [|done].
  assert (∃ line, summaries (self fr) = Raise (ZeroDivisionError line)) as [line Hs].
  { destruct (rewards (self fr)) as [|r rs] eqn:Hr; [by eexists; apply H99|].
    destruct Hempty as [Hds|?]; [|done]. destruct (Hd Hds) as (_ & _ & Hsr).
    exists 113%nat. unfold summaries. rewrite Hr, Hsr. simpl length. by unfold div_len. }
  exists line. split; [done|]. unfold background. rewrite He. simpl. rewrite Hrun. simpl.
  by rewrite Hs.
Qed.

(** *** The participant list *)

Section Identity.
(** [ident] reads the identity of a participant object; no method call
    changes it. *)
Context {I : Type} (ident : D → I) `{!RandomShuffle G}.
Hypothesis ident_set_sigma_feedback :
  ∀ Sg fb f count hp (d : D), ident (set_sigma_feedback Sg fb f count hp d) = ident d.
Hypothesis ident_run : ∀ hp (d : D) (g : G), ident (run hp d g).1 = ident d.
Hypothesis ident_update_stake : ∀ (r : R) (d : D), ident (update_stake r d) = ident d.
Hypothesis ident_resync_stake : ∀ (r : R) (d : D), ident (resync_stake r d) = ident d.

Lemma run_darkies_ident (Sg : R) (fb : Z) (f : R) count hp (ds : list D) (ts : R) (g : G) :
  ident <$> (run_darkies Sg fb f count hp ds ts g).1.1 = ident <$> ds.
Proof.
  revert ts g. induction ds as [|d ds IH]; intros ts g; simpl; [done|].
  pose proof (ident_run hp (set_sigma_feedback Sg fb f count hp d) g) as Hd.
  destruct (run hp (set_sigma_feedback Sg fb f count hp d) g) as [d1 g1].
  specialize (IH (Radd ts (stake d1)) g1).
  destruct (run_darkies Sg fb f count hp ds (Radd ts (stake d1)) g1) as [[ds1 ts1] g2].
  change (ident d1 = ident (set_sigma_feedback Sg fb f count hp d)) in Hd.
  change (ident <$> ds1 = ident <$> ds) in IH.
  change (ident d1 :: (ident <$> ds1) = ident d :: (ident <$> ds)).
  by rewrite Hd, ident_set_sigma_feedback, IH.
Qed.

Lemma pay_winner_ident (rs : list R) (ds ds' : list D) :
  pay_winner rs ds = Ok ds' → ident <$> ds' = ident <$> ds.
Proof.
  revert ds'. induction ds as [|d ds IH]; intros ds' Hp; simpl in Hp.
  - by injection Hp as <-.
  - destruct (last (won_hist d)) as [[|]|]; [| |done].
    + destruct (last rs) as [r|]; [|done]. injection Hp as <-.
      simpl. by rewrite ident_update_stake.
    + bind_inv Hp. injection Hp as <-. by rewrite !fmap_cons, (IH a Ha).
Qed.

Lemma resync_one_ident count (rs : list R) (i : Z) (s s' : R * list D * G) :
  resync_one EPOCH_LENGTH count rs i s = Ok s' → ident <$> s'.1.2 ≡ₚ ident <$> s.1.2.
Proof.
  destruct s as [[Sg ds] g]. unfold resync_one. intros Hres.
  destruct (py_index rs _) as [r|]; [|done].
  pose proof (shuffle_perm D ds g) as Hperm.
  destruct (shuffle ds g) as [ds1 g1]. bind_inv Hres.
  destruct (ds1 !! default 0%nat a) as [d|] eqn:Hd; [|done]. injection Hres as <-.
  simpl in *. rewrite list_fmap_insert, ident_resync_stake, list_insert_id.
  - by rewrite Hperm.
  - by rewrite list_lookup_fmap, Hd.
Qed.

Lemma finalize_ident count (rs : list R) (ws : list Z) (s s' : R * list D * G) :
  finalize EPOCH_LENGTH count rs ws s = Ok s' → ident <$> s'.1.2 ≡ₚ ident <$> s.1.2.
Proof.
  destruct s as [[Sg ds] g]. unfold finalize. intros Hfin.
  destruct (decide (last ws = Some 1)); [|by injection Hfin as <-].
  bind_inv Hfin. destruct (last rs) as [r|]; [|done]. simpl.
  rewrite <- (pay_winner_ident rs ds a Ha).
  eapply (for_each_invariant _ (λ s1, ident <$> s1.1.2 ≡ₚ ident <$> a) _ (Radd Sg r, a, g));
    [|done|exact Hfin].
  intros c s1 s2 _ Hs1 Hstep. by rewrite (resync_one_ident _ _ _ _ _ Hstep).
Qed.

Lemma slot_ident dbg hp count fr fr' :
  slot EPOCH_LENGTH dbg hp count fr = Ok fr' →
  ident <$> darkies (self fr') ≡ₚ ident <$> darkies (self fr).
Proof.
  intros Hs. apply slot_inv in Hs as (o & Hw & <- & _).
  apply slot_work_inv in Hw as (w & _ & Hfin & _).
  apply finalize_ident in Hfin. simpl in Hfin. rewrite Hfin.
  unfold slot_ran. by rewrite run_darkies_ident.
Qed.

Lemma run_slots_ident dbg hp n fr fr' :
  run_slots EPOCH_LENGTH dbg hp n fr = Ok fr' →
  ident <$> darkies (self fr') ≡ₚ ident <$> darkies (self fr).
Proof.
  unfold run_slots. intros Hrun.
  eapply (for_each_invariant _
            (λ fr1, ident <$> darkies (self fr1) ≡ₚ ident <$> darkies (self fr)) _ fr);
    [|done|exact Hrun].
  intros c s1 s2 _ Hs1 Hstep. by rewrite (slot_ident _ _ _ _ _ Hstep).
Qed.

Lemma enter_darkies rand_running_time dbg t (g : G) fr0 :
  enter rand_running_time dbg t g = Ok fr0 → darkies (self fr0) = darkies t.
Proof.
  unfold enter. intros He. bind_inv He. destruct a as [rt g1]. by injection He as <-.
Qed.

Lemma background_ident rand_running_time dbg hp t (g : G) res fr :
  background EPOCH_LENGTH rand_running_time dbg hp t g = Ok (res, fr) →
  ident <$> darkies (self fr) ≡ₚ ident <$> darkies t.
Proof.
  unfold background. intros Hb. bind_inv Hb. bind_inv Hb. bind_inv Hb.
  injection Hb as _ <-. rewrite <- (enter_darkies _ _ _ _ _ Ha).
  by eapply run_slots_ident.
Qed.

End Identity.

(** *** Attribution of a resync payout *)

Lemma first_winner_at_none (sl : Z) (ds : list D) (i : nat) :
  Forall (λ d, py_index (won_hist d) sl = Some false) ds →
  first_winner_at sl ds i = Ok None.
Proof.
  revert i. induction ds as [|d ds IH]; intros i Hall; simpl; [done|].
  inversion Hall as [|? ? Hd Hds]; subst. rewrite Hd. by apply IH.
Qed.

(** When no participant won the resynced slot, the payout goes to whoever
    is first after the shuffle. *)
Lemma resync_one_no_winner count (rs : list R) (i : Z) (Sg r : R) (ds ds1 : list D)
    (d0 : D) (g g1 : G) :
  py_index rs (Z.quot (count - (i + 1)) (Z.pos EPOCH_LENGTH)) = Some r →
  shuffle ds g = (d0 :: ds1, g1) →
  Forall (λ d, py_index (won_hist d) (count - (i + 1)) = Some false) (d0 :: ds1) →
  resync_one EPOCH_LENGTH count rs i (Sg, ds, g)
  = Ok (Radd Sg r, resync_stake r d0 :: ds1, g1).
Proof.
  intros Hr Hsh Hall. unfold resync_one. rewrite Hr, Hsh.
  by rewrite (first_winner_at_none _ _ _ Hall).
Qed.

End LotteryProps.

(** ** The scripted instance satisfies the laws *)

Lemma number_Z_order : @NumberOrder Z Scripted.number_Z.
Proof.
  split; unfold Rle; simpl; intros; rewrite ?Z.leb_le in *; unfold id in *; lia.
Qed.

Lemma random_nat_shuffle : @RandomShuffle nat Scripted.random_nat.
Proof. intros A l g. simpl. symmetry. apply Permutation_rev. Qed.

Lemma clipped_pid_nonneg (x : Z) (dbg : bool) (p : Z) :
  @Rle Z Scripted.number_Z 0 (@pid_clipped Z Z Scripted.clipped_pid x dbg p).1.
Proof. unfold Rle. simpl. apply Z.leb_le. lia. Qed.

(** ** Resync attribution *)

(** C2. Two participants, reward 7, [EPOCH_LENGTH = 5]: nobody wins slot 0
    and participant 1 alone wins slot 1. The resync of slot 0 finds no
    participant with a win at slot 0, falls back to index 0 of the shuffled
    list and calls [resync_stake(7)] on participant 2, whose [won_hist[0]]
    is false; the supply grows by that reward too. *)
Theorem resync_pays_participant_without_win :
  ∃ res fr d,
    Scripted.background (Scripted.table 300 2 7 Scripted.two_darkies) = Ok (res, fr) ∧
    winners (self fr) = [0; 1] ∧
    darkies (self fr) !! 0%nat = Some d ∧
    Scripted.sd_id d = 2%nat ∧
    py_index (Scripted.sd_won d) 0 = Some false ∧
    Scripted.sd_resyncs d = [7] ∧
    Forall (λ d', py_index (Scripted.sd_won d') 0 = Some false) (darkies (self fr)) ∧
    Sigma (self fr) = 300 + 7 + 7.
Proof.
  do 3 eexists. split; [vm_compute; reflexivity|]. simpl.
  repeat split; repeat constructor.
Qed.

(** ** The search view *)

Section SearchProps.
Context {Exc Block Transactions Transaction Html : Type}.
Variable get_block : string → result Exc Block.
Variable get_block_transactions : string → result Exc Transactions.
Variable get_transaction : string → result Exc Transaction.
Variable render_template :
  string → @Explorer.context Block Transactions Transaction → result Exc Html.

Local Abbreviation search :=
  (Explorer.search get_block get_block_transactions get_transaction render_template).
Local Abbreviation search_block :=
  (Explorer.search_block get_block get_block_transactions render_template).
Local Abbreviation search_transaction :=
  (Explorer.search_transaction get_transaction render_template).

(** The view on its own. [search] first tries the block lookup (the
    block, then its transactions, then the block page) and answers with
    that page when it succeeds; when the attempt raises, whatever the
    exception, it answers as the transaction lookup does; and when the
    transaction lookup raises as well, [search] raises that exception to
    its caller: it builds no not-found response of its own. *)
Theorem search_fallback (search_hash : string) (e : Exc) :
  search_block search_hash = Raise e →
  search search_hash = search_transaction search_hash ∧
  (∀ transaction, get_transaction search_hash = Ok transaction →
     search search_hash
     = render_template "transaction.html" (Explorer.TransactionCtx transaction)) ∧
  (∀ e', get_transaction search_hash = Raise e' → search search_hash = Raise e') ∧
  (∀ search_hash' block transactions page,
     get_block search_hash' = Ok block →
     get_block_transactions search_hash' = Ok transactions →
     render_template "block.html" (Explorer.BlockCtx block transactions) = Ok page →
     search search_hash' = Ok page).
Proof.
  intros Hb. unfold Explorer.search. rewrite Hb. split; [done|].
  unfold Explorer.search_transaction. split; [|split].
  - by intros transaction ->.
  - by intros e' ->.
  - intros h' block transactions page Hblock Htxs Hpage.
    unfold Explorer.search_block. rewrite Hblock. simpl. rewrite Htxs. simpl.
    by rewrite Hpage.
Qed.

End SearchProps.

(** For a hash that is neither a block nor a
    transaction both lookups raise, and [search] returns no response at
    all, it raises the exception of the transaction lookup. *)
Lemma search_both_fail_raises :
  (∃ e, Explorer.Demo.get_block "beef" = Raise e) ∧
  (∃ e, Explorer.Demo.get_transaction "beef" = Raise e) ∧
  Explorer.Demo.search "beef" = Raise "no such transaction" ∧
  ¬ (∃ response, Explorer.Demo.search "beef" = Ok response).
Proof.
  split; [by eexists|]. split; [by eexists|]. split; [reflexivity|].
  intros [response Hr]. vm_compute in Hr. discriminate.
Qed.

Lemma search_fallback_witness :
  Explorer.Demo.search "beef" = Raise "no such transaction" ∧
  Explorer.Demo.search "7a01"
  = Ok ("transaction.html", Explorer.TransactionCtx "transaction 7a01") ∧
  Explorer.Demo.search "b10c" = Ok ("block.html", Explorer.BlockCtx "block b10c" ["7a01"]).
Proof.
  split; [|split].
  - refine (proj1 (proj2 (proj2
      (search_fallback Explorer.Demo.get_block Explorer.Demo.get_block_transactions
         Explorer.Demo.get_transaction Explorer.Demo.render_template
         "beef" "no such block" _))) "no such transaction" _); reflexivity.
  - refine (proj1 (proj2
      (search_fallback Explorer.Demo.get_block Explorer.Demo.get_block_transactions
         Explorer.Demo.get_transaction Explorer.Demo.render_template
         "7a01" "no such block" _)) "transaction 7a01" _); reflexivity.
  - refine (proj2 (proj2 (proj2
      (search_fallback Explorer.Demo.get_block Explorer.Demo.get_block_transactions
         Explorer.Demo.get_transaction Explorer.Demo.render_template
         "beef" "no such block" _))) "b10c" "block b10c" ["7a01"] _ _ _ _); reflexivity.
Defined.

(** ** The participant list after a run *)

(** C10. A run keeps the participants and may reorder them: whatever the
    participants, controllers and generator, the identities found in
    [self.darkies] after [background] are a rearrangement of those found
    before; and the order can change, as in the run of two participants
    where the resync shuffle leaves participant 2 at index 0, so that
    [write] numbers the logs in the new order. *)
Theorem participant_list_permuted :
  (∀ (R G D P1 P2 I : Type) (HN : Number R) (HR : Random G) (HD : Darkie R G D)
     (primary : PID R P1) (secondary : PID R P2) (EPOCH_LENGTH : positive)
     (ident : D → I) (HS : RandomShuffle G)
     (rand_running_time dbg hp : bool) (t : DarkfiTable) (g : G) res fr,
     (∀ Sg fb f count hp d, ident (set_sigma_feedback Sg fb f count hp d) = ident d) →
     (∀ hp d g, ident (run hp d g).1 = ident d) →
     (∀ r d, ident (update_stake r d) = ident d) →
     (∀ r d, ident (resync_stake r d) = ident d) →
     background EPOCH_LENGTH rand_running_time dbg hp t g = Ok (res, fr) →
     ident <$> darkies (self fr) ≡ₚ ident <$> darkies t) ∧
  (∃ res fr,
     Scripted.background (Scripted.table 300 2 7 Scripted.two_darkies) = Ok (res, fr) ∧
     Scripted.sd_id <$> Scripted.two_darkies = [1; 2]%nat ∧
     Scripted.sd_id <$> darkies (self fr) = [2; 1]%nat ∧
     (λ p, (p.1, Scripted.sd_id p.2)) <$> write_ids (self fr) = [(0, 2); (1, 1)]%nat).
Proof.
  split.
  - intros. by eapply background_ident.
  - do 2 eexists. split; [vm_compute; reflexivity|]. by repeat split.
Qed.

Lemma participant_list_permuted_witness :
  ∃ res fr,
    Scripted.background (Scripted.table 300 2 7 Scripted.two_darkies) = Ok (res, fr) ∧
    Scripted.sd_id <$> darkies (self fr) ≡ₚ Scripted.sd_id <$> Scripted.two_darkies.
Proof.
  do 2 eexists. split; [vm_compute; reflexivity|].
  refine (proj1 participant_list_permuted Z nat Scripted.sdarkie Z Z nat
            Scripted.number_Z Scripted.random_nat Scripted.darkie_scripted
            Scripted.constant_pid Scripted.constant_pid Scripted.EL Scripted.sd_id
            random_nat_shuffle false false true
            (Scripted.table 300 2 7 Scripted.two_darkies) 0%nat _ _ _ _ _ _ _);
    [reflexivity..|vm_compute; reflexivity].
Defined.

(** ** The properties on scripted runs *)

(** Slot 1 of the run of two participants passes the check with
    [total_stake = 200] against a supply of 314; with an airdrop of 100 the
    check of slot 0 fails and the run of two slots ends there. *)
Lemma stake_supply_check_witness :
  (∃ frk o,
     Scripted.run_slots 1 (Scripted.table 300 2 7 Scripted.two_darkies) = Ok frk ∧
     out_total_stake o = 200 ∧ Sigma (self (out_frame o)) = 314 ∧
     Scripted.run_slots 2 (Scripted.table 300 2 7 Scripted.two_darkies)
     = Ok (out_frame o)) ∧
  Scripted.run_slots 2 (Scripted.table 100 2 7 Scripted.two_darkies)
  = Raise (AssertionError 96).
Proof.
  split.
  - destruct (proj1 (@stake_supply_check Z nat Scripted.sdarkie Z Z
                Scripted.number_Z Scripted.random_nat Scripted.darkie_scripted
                Scripted.constant_pid Scripted.constant_pid Scripted.EL false true 2
                (Scripted.start (Scripted.table 300 2 7 Scripted.two_darkies)) 1
                ltac:(lia)) _ eq_refl)
      as (frk & o & Hk & Hw & Hk1 & Hts & Hle).
    exists frk, o. split; [exact Hk|].
    vm_compute in Hk. injection Hk as <-. vm_compute in Hw. injection Hw as <-.
    repeat split.
  - refine (proj2 (@stake_supply_check Z nat Scripted.sdarkie Z Z
                Scripted.number_Z Scripted.random_nat Scripted.darkie_scripted
                Scripted.constant_pid Scripted.constant_pid Scripted.EL false true 2
                (Scripted.start (Scripted.table 100 2 7 Scripted.two_darkies)) 0
                ltac:(lia)) _ _ eq_refl _ _); [vm_compute; reflexivity | reflexivity].
Defined.

(** Slot 1 of the same run has one winner: participant 1, at index 0,
    receives [update_stake(7)]. *)
Lemma uniqueness_gated_payout_witness :
  ∃ fr o w,
    Scripted.run_slots 1 (Scripted.table 300 2 7 Scripted.two_darkies) = Ok fr ∧
    @slot_work Z nat Scripted.sdarkie Z Z Scripted.number_Z Scripted.random_nat
      Scripted.darkie_scripted Scripted.constant_pid Scripted.constant_pid
      Scripted.EL false true 1 fr = Ok o ∧
    last (winners (self (out_frame o))) = Some w ∧ w = 1.
Proof.
  eexists _, _, _. split; [vm_compute; reflexivity|].
  match goal with
  | |- ?H ∧ _ => assert H as Hw by (vm_compute; reflexivity)
  end.
  split; [exact Hw|].
  destruct (@uniqueness_gated_payout Z nat Scripted.sdarkie Z Z
              Scripted.number_Z Scripted.random_nat Scripted.darkie_scripted
              Scripted.constant_pid Scripted.constant_pid Scripted.EL false true 1
              _ _ Hw) as (w & Hc & Hlast & _).
  vm_compute in Hc. injection Hc as <-. split; [exact Hlast | reflexivity].
Defined.

(** Seven slots with [EPOCH_LENGTH = 5] leave [ceil(7/5) = 2] rewards. *)
Lemma rewards_shape_witness :
  ∃ frn,
    Scripted.run_slots 7 (Scripted.table 300 7 7 Scripted.two_darkies) = Ok frn ∧
    Z.of_nat (length (rewards (self frn))) = ceil_div 7 5 ∧ ceil_div 7 5 = 2.
Proof.
  eexists. split; [vm_compute; reflexivity|]. split; [|reflexivity].
  refine (proj1 (proj2 (@rewards_shape Z nat Scripted.sdarkie Z Z
            Scripted.number_Z Scripted.random_nat Scripted.darkie_scripted
            Scripted.constant_pid Scripted.constant_pid Scripted.EL false true 7
            (Scripted.start (Scripted.table 300 7 7 Scripted.two_darkies)) _
            ltac:(lia) _)) eq_refl).
  vm_compute; reflexivity.
Defined.

(** With the controller clipped at 0 the supply after one slot is at most
    the supply after two. *)
Lemma supply_monotone_witness :
  ∃ fr1 fr2,
    @run_slots Z nat Scripted.sdarkie Z Z Scripted.number_Z Scripted.random_nat
      Scripted.darkie_scripted Scripted.clipped_pid Scripted.constant_pid
      Scripted.EL false true 1
      (Scripted.start (Scripted.table 300 2 7 Scripted.two_darkies)) = Ok fr1 ∧
    @run_slots Z nat Scripted.sdarkie Z Z Scripted.number_Z Scripted.random_nat
      Scripted.darkie_scripted Scripted.clipped_pid Scripted.constant_pid
      Scripted.EL false true 2
      (Scripted.start (Scripted.table 300 2 7 Scripted.two_darkies)) = Ok fr2 ∧
    Sigma (self fr1) = 300 ∧ Sigma (self fr2) = 314 ∧
    @Rle Z Scripted.number_Z (Sigma (self fr1)) (Sigma (self fr2)).
Proof.
  eexists _, _. split; [vm_compute; reflexivity|]. split; [vm_compute; reflexivity|].
  split; [reflexivity|]. split; [reflexivity|].
  refine (@supply_monotone Z nat Scripted.sdarkie Z Z
            Scripted.number_Z Scripted.random_nat Scripted.darkie_scripted
            Scripted.clipped_pid Scripted.constant_pid Scripted.EL number_Z_order
            clipped_pid_nonneg false true 1 2
            (Scripted.start (Scripted.table 300 2 7 Scripted.two_darkies)) _ _
            _ ltac:(lia) _ _); [constructor | vm_compute; reflexivity..].
Defined.

(** With a controller that outputs a negative reward the supply goes down:
    the hypothesis on the primary controller cannot be dropped. *)
Lemma supply_decreases_with_negative_reward :
  ∃ fr2,
    Scripted.run_slots 2 (Scripted.table 300 2 (-7) Scripted.two_darkies) = Ok fr2 ∧
    Sigma (self fr2) = 286.
Proof. eexists. split; [vm_compute; reflexivity | reflexivity]. Qed.

(** A run of one slot without participants ends in ZeroDivisionError. *)
Lemma empty_input_summaries_raise_witness :
  ∃ line, Scripted.background (Scripted.table 300 1 7 []) = Raise (ZeroDivisionError line).
Proof.
  destruct (proj1 (@empty_input_summaries_raise Z nat Scripted.sdarkie Z Z
              Scripted.number_Z Scripted.random_nat Scripted.darkie_scripted
              Scripted.constant_pid Scripted.constant_pid Scripted.EL false false true
              (Scripted.table 300 1 7 []) 0%nat _ _ eq_refl
              ltac:(vm_compute; reflexivity) ltac:(left; reflexivity)))
    as (line & _ & Hb).
  exists line. exact Hb.
Defined.

(** No run of the scripted instance reads [acc] or [rewards[-1]] before
    they are computed. *)
Lemma first_epoch_boundary_safety_witness :
  computed_before_use
    (Scripted.background (Scripted.table 300 7 7 Scripted.two_darkies)) ∧
  ∃ frn,
    Scripted.run_slots 1 (Scripted.table 300 7 7 Scripted.two_darkies) = Ok frn ∧
    is_Some (acc_var frn) ∧ rewards (self frn) ≠ [].
Proof.
  split.
  - exact (proj1 (proj2 (@first_epoch_boundary_safety Z nat Scripted.sdarkie Z Z
             Scripted.number_Z Scripted.random_nat Scripted.darkie_scripted
             Scripted.constant_pid Scripted.constant_pid Scripted.EL false true))
             false (Scripted.table 300 7 7 Scripted.two_darkies) 0%nat).
  - eexists. split; [vm_compute; reflexivity|].
    refine (proj1 (proj2 (proj2 (@first_epoch_boundary_safety Z nat Scripted.sdarkie Z Z
             Scripted.number_Z Scripted.random_nat Scripted.darkie_scripted
             Scripted.constant_pid Scripted.constant_pid Scripted.EL false true)))
             1 (Scripted.start (Scripted.table 300 7 7 Scripted.two_darkies)) _
             ltac:(lia) _).
    vm_compute; reflexivity.
Defined.

(** ** Further properties of the engine *)

Section Coverage.
Context {R G D P1 P2 : Type}.
Context `{!Number R, !Random G, !Darkie R G D}.
Context {primary : PID R P1} {secondary : PID R P2}.
Variable EPOCH_LENGTH : positive.

Implicit Types (t : @DarkfiTable R D P1 P2) (fr : @frame R G D P1 P2).
Implicit Types (o : @slot_out R G D P1 P2) (dbg hp : bool) (count n k : Z).

(** *** The winners sequence *)

Lemma count_winners_filter (ds : list D) (w0 w : Z) :
  count_winners ds w0 = Ok w →
  w = w0 + Z.of_nat (length (filter (λ d, last (won_hist d) = Some true) ds)).
Proof.
  revert w0. induction ds as [|d ds IH]; intros w0 Hc; simpl in Hc.
  - injection Hc as <-. simpl. lia.
  - destruct (last (won_hist d)) as [b|] eqn:Hb; [|done].
    apply IH in Hc. destruct b; simpl in Hc.
    + rewrite filter_cons_True by done. simpl length. lia.
    + rewrite filter_cons_False by (rewrite Hb; congruence). lia.
Qed.

Lemma run_darkies_length (Sg : R) (fb : Z) (f : R) count hp (ds : list D) (ts : R) (g : G) :
  length (run_darkies Sg fb f count hp ds ts g).1.1 = length ds.
Proof.
  revert ts g. induction ds as [|d ds IH]; intros ts g; simpl; [done|].
  destruct (run hp (set_sigma_feedback Sg fb f count hp d) g) as [d1 g1].
  specialize (IH (Radd ts (stake d1)) g1).
  destruct (run_darkies Sg fb f count hp ds (Radd ts (stake d1)) g1) as [[ds1 ts1] g2].
  simpl in *. by rewrite IH.
Qed.

(** X1. A slot appends exactly one entry to [winners]: the number of
    participants whose outcome of that slot is a win, which lies between 0
    and the number of participants; the same number is the [feedback] of
    the next slot. *)
Theorem winners_entry dbg hp count fr o :
  slot_work EPOCH_LENGTH dbg hp count fr = Ok o →
  ∃ w, winners (self (out_frame o)) = winners (self fr) ++ [w] ∧
    w = Z.of_nat (length (filter (λ d, last (won_hist d) = Some true)
                            (slot_ran dbg hp count fr).1.1)) ∧
    0 ≤ w ≤ Z.of_nat (length (darkies (self fr))) ∧
    feedback (out_frame o) = w.
Proof.
  intros Hw. apply slot_work_inv in Hw as (w & Hc & _ & _ & Hws & Hfb & _).
  exists w. split; [done|]. apply count_winners_filter in Hc.
  split; [lia|]. split; [|done].
  pose proof (length_filter (λ d, last (won_hist d) = Some true)
                (slot_ran dbg hp count fr).1.1) as Hlen.
  unfold slot_ran in Hlen at 2. rewrite run_darkies_length in Hlen. lia.
Qed.

Lemma slot_winners dbg hp count fr fr' :
  slot EPOCH_LENGTH dbg hp count fr = Ok fr' →
  (∃ w, winners (self fr') = winners (self fr) ++ [w]) ∧
  running_time (self fr') = running_time (self fr).
Proof.
  intros Hs. apply slot_inv in Hs as (o & Hw & <- & _).
  apply slot_work_inv in Hw as (w & _ & _ & _ & Hws & _ & _ & _ & Hrt). eauto.
Qed.

Lemma for_each_slot_winners dbg hp (l : list Z) fr0 frn :
  for_each (slot EPOCH_LENGTH dbg hp) l fr0 = Ok frn →
  (∃ ws, winners (self frn) = winners (self fr0) ++ ws ∧ length ws = length l) ∧
  running_time (self frn) = running_time (self fr0).
Proof.
  revert frn. induction l as [|c l IH] using rev_ind; intros frn Hrun.
  - injection Hrun as <-. split; [|done]. exists []. by rewrite app_nil_r.
  - rewrite for_each_snoc in Hrun. bind_inv Hrun.
    destruct (IH a Ha) as [(ws & Hws & Hlen) Hrt].
    apply slot_winners in Hrun as [[w Hw] Hrt']. split; [|congruence].
    exists (ws ++ [w]). rewrite Hw, Hws, <- app_assoc. split; [done|].
    rewrite !length_app. simpl. lia.
Qed.

Lemma run_slots_winners dbg hp n fr0 frn :
  run_slots EPOCH_LENGTH dbg hp n fr0 = Ok frn →
  (∃ ws, winners (self frn) = winners (self fr0) ++ ws ∧ length ws = Z.to_nat n) ∧
  running_time (self frn) = running_time (self fr0).
Proof.
  intros Hrun. apply for_each_slot_winners in Hrun as [(ws & Hws & Hlen) Hrt].
  split; [|done]. exists ws. split; [done|].
  by rewrite Hlen; unfold arange; rewrite length_fmap, length_seq.
Qed.

(** X2. A run that returns went through exactly [running_time] slots
    (none when it is not positive), where [running_time] is the value
    stored back into the table: the configured one, or the one drawn from
    [1, running_time] when [rand_running_time] is set; [winners] has grown
    by one entry per slot. *)
Theorem one_winners_entry_per_slot rand_running_time dbg hp t (g : G) res fr :
  background EPOCH_LENGTH rand_running_time dbg hp t g = Ok (res, fr) →
  running_time (self fr)
  = (if rand_running_time then (randint 1 (running_time t) g).1 else running_time t) ∧
  ∃ ws, winners (self fr) = winners t ++ ws ∧
    length ws = Z.to_nat (running_time (self fr)).
Proof.
  unfold background. intros Hb. bind_inv Hb. bind_inv Hb. bind_inv Hb.
  injection Hb as _ <-. apply run_slots_winners in Ha0 as [(ws & Hws & Hlen) Hrt].
  unfold enter in Ha. bind_inv Ha. destruct a2 as [rt g1]. injection Ha as <-.
  simpl in *. split.
  - rewrite Hrt. destruct rand_running_time; simpl in Ha2.
    + destruct (decide (1 ≤ running_time t)); [|done].
      injection Ha2 as Ha2. by rewrite Ha2.
    + by injection Ha2 as <- _.
  - exists ws. by rewrite Hrt.
Qed.

(** *** What a finalizing slot adds to the supply *)

Lemma resync_one_inv count (rs : list R) (i : Z) (Sg : R) (ds : list D) (g : G)
    (s' : R * list D * G) :
  resync_one EPOCH_LENGTH count rs i (Sg, ds, g) = Ok s' →
  ∃ r found d,
    py_index rs (Z.quot (count - (i + 1)) (Z.pos EPOCH_LENGTH)) = Some r ∧
    first_winner_at (count - (i + 1)) (shuffle ds g).1 0 = Ok found ∧
    (shuffle ds g).1 !! default 0%nat found = Some d ∧
    s' = (Radd Sg r, <[default 0%nat found := resync_stake r d]> (shuffle ds g).1,
          (shuffle ds g).2).
Proof.
  unfold resync_one. intros Hres.
  destruct (py_index rs _) as [r|] eqn:Hr; [|done].
  destruct (shuffle ds g) as [ds1 g1]. bind_inv Hres.
  destruct (ds1 !! default 0%nat a) as [d|] eqn:Hd; [|done]. injection Hres as <-.
  by exists r, a, d.
Qed.

Lemma for_each_resync_supply count (rs : list R) (l : list Z) (s s' : R * list D * G) :
  for_each (resync_one EPOCH_LENGTH count rs) l s = Ok s' →
  ∃ rrs,
    Forall2 (λ i rr, py_index rs (Z.quot (count - (i + 1)) (Z.pos EPOCH_LENGTH)) = Some rr)
            l rrs ∧
    s'.1.1 = foldl Radd s.1.1 rrs.
Proof.
  revert s. induction l as [|i l IH]; intros s Hrun; simpl in Hrun.
  - injection Hrun as <-. exists []. by split; [constructor|].
  - bind_inv Hrun. destruct s as [[Sg ds] g].
    apply resync_one_inv in Ha as (r & found & d & Hr & _ & _ & ->).
    destruct (IH _ Hrun) as (rrs & Hall & Hsum).
    exists (r :: rrs). split; [by constructor | done].
Qed.

(** X3. The supply after a slot depends on [rewards] and [winners] only,
    not on the participants or the shuffle: a slot whose winner count is 1
    adds [rewards[-1]] and then, for each [i] below [merge_length], the
    reward of the epoch of slot [count - (i + 1)]; any other slot leaves
    the supply as it is. *)
Theorem supply_accounting dbg hp count fr o :
  slot_work EPOCH_LENGTH dbg hp count fr = Ok o →
  if decide (last (winners (self (out_frame o))) = Some 1) then
    ∃ r rrs,
      last (rewards (self (out_frame o))) = Some r ∧
      Forall2 (λ i rr, py_index (rewards (self (out_frame o)))
                         (Z.quot (count - (i + 1)) (Z.pos EPOCH_LENGTH)) = Some rr)
              (arange (Z.of_nat (merge_length (winners (self (out_frame o)))))) rrs ∧
      Sigma (self (out_frame o)) = foldl Radd (Radd (Sigma (self fr)) r) rrs
  else Sigma (self (out_frame o)) = Sigma (self fr).
Proof.
  intros Hw. apply slot_work_inv in Hw as (w & _ & Hfin & -> & -> & _).
  unfold finalize in Hfin. destruct (decide (last (winners (self fr) ++ [w]) = Some 1)).
  - bind_inv Hfin.
    destruct (last (slot_rewards EPOCH_LENGTH dbg count fr)) as [r|]; [|done].
    apply for_each_resync_supply in Hfin as (rrs & Hall & Hsum). by exists r, rrs.
  - by injection Hfin as <- _ _.
Qed.

(** *** Which reads can fail *)

Lemma for_each_raise_inv {E S : Type} (body : Z → S → result E S) (I : S → Prop)
    (l : list Z) (s : S) (e : E) :
  (∀ c s1 s2, c ∈ l → I s1 → body c s1 = Ok s2 → I s2) →
  I s → for_each body l s = Raise e →
  ∃ c s1, c ∈ l ∧ I s1 ∧ body c s1 = Raise e.
Proof.
  revert s. induction l as [|c l IH]; intros s Hstep Hs Hrun; simpl in Hrun; [done|].
  destruct (body c s) as [s1|e1] eqn:Hb; simpl in Hrun.
  - destruct (IH s1) as (c' & s' & Hc' & Hs' & Hb'); [|by eapply Hstep; [left|..]|done|].
    + intros c' sa sb Hc'. apply Hstep. by right.
    + exists c', s'. split; [by right | done].
  - injection Hrun as ->. exists c, s. split; [by left | done].
Qed.

Lemma for_each_raise_at {E S : Type} (body : Z → S → result E S) (l : list Z) (s : S) (e : E) :
  for_each body l s = Raise e →
  ∃ l1 c l2 s1, l = l1 ++ c :: l2 ∧ for_each body l1 s = Ok s1 ∧ body c s1 = Raise e.
Proof.
  revert s. induction l as [|c l IH]; intros s Hrun; simpl in Hrun; [done|].
  destruct (body c s) as [s1|e1] eqn:Hb; simpl in Hrun.
  - destruct (IH s1 Hrun) as (l1 & c' & l2 & s' & -> & Hl1 & Hb').
    exists (c :: l1), c', l2, s'. split; [done|]. split; [|done]. simpl. by rewrite Hb.
  - injection Hrun as ->. by exists [], c, l, s.
Qed.

Lemma arange_app_inv (n : Z) (l1 l2 : list Z) (c : Z) :
  arange n = l1 ++ c :: l2 → 0 ≤ c < n ∧ l1 = arange c.
Proof.
  intros Heq.
  assert (Z.of_nat (length l1) < n) as Hlt.
  { assert (length (arange n) = length (l1 ++ c :: l2)) as Hlen by by rewrite Heq.
    unfold arange in Hlen. rewrite length_fmap, length_seq, length_app in Hlen.
    simpl in Hlen. lia. }
  destruct (arange_split_at (Z.of_nat (length l1)) n) as [rest Hrest]; [lia|].
  rewrite Hrest in Heq. apply app_inj_1 in Heq as [Hl1 Hc].
  - injection Hc as <- _. split; [lia | done].
  - unfold arange. rewrite length_fmap, length_seq. lia.
Qed.

Lemma run_slots_raise_at dbg hp n fr0 e :
  run_slots EPOCH_LENGTH dbg hp n fr0 = Raise e →
  ∃ k frk, 0 ≤ k < n ∧ run_slots EPOCH_LENGTH dbg hp k fr0 = Ok frk ∧
    slot EPOCH_LENGTH dbg hp k frk = Raise e.
Proof.
  unfold run_slots. intros Hrun.
  apply for_each_raise_at in Hrun as (l1 & c & l2 & s1 & Heq & Hl1 & Hb).
  apply arange_app_inv in Heq as [Hc ->]. by exists c, s1.
Qed.

Lemma count_until_one_le (l : list Z) (m : nat) :
  (count_until_one l m ≤ m + length l)%nat.
Proof.
  revert m. induction l as [|i l IH]; intros m; simpl; [lia|].
  destruct (decide (i ≠ 1)); [|lia]. specialize (IH (S m)). lia.
Qed.

Lemma merge_length_snoc_le (ws : list Z) (w : Z) :
  (merge_length (ws ++ [w]) ≤ length ws)%nat.
Proof.
  unfold merge_length. rewrite removelast_last.
  pose proof (count_until_one_le (rev ws) 0) as Hle. by rewrite length_rev in Hle.
Qed.

Lemma first_winner_at_bound (sl : Z) (ds : list D) (i0 idx : nat) :
  first_winner_at sl ds i0 = Ok (Some idx) → (i0 ≤ idx < i0 + length ds)%nat.
Proof.
  revert i0. induction ds as [|d ds IH]; intros i0 Hf; simpl in Hf; [done|].
  destruct (py_index (won_hist d) sl) as [[|]|]; [| |done].
  - injection Hf as <-. simpl. lia.
  - apply IH in Hf. simpl. lia.
Qed.

Lemma pay_winner_length (rs : list R) (ds ds' : list D) :
  pay_winner rs ds = Ok ds' → length ds' = length ds.
Proof.
  revert ds'. induction ds as [|d ds IH]; intros ds' Hp; simpl in Hp.
  - by injection Hp as <-.
  - destruct (last (won_hist d)) as [[|]|]; [| |done].
    + destruct (last rs); [|done]. by injection Hp as <-.
    + bind_inv Hp. injection Hp as <-. simpl. by rewrite (IH a Ha).
Qed.

Lemma py_index_in_range {A : Type} (l : list A) (i : Z) :
  0 ≤ i < Z.of_nat (length l) → is_Some (py_index l i).
Proof.
  intros Hi. unfold py_index. rewrite decide_True by lia.
  apply lookup_lt_is_Some. lia.
Qed.

Section Shuffled.
Context `{!RandomShuffle G}.

Lemma shuffle_length (ds : list D) (g : G) : length (shuffle ds g).1 = length ds.
Proof. apply Permutation_length, shuffle_perm. Qed.

Lemma resync_one_length count (rs : list R) (i : Z) (s s' : R * list D * G) :
  resync_one EPOCH_LENGTH count rs i s = Ok s' → length s'.1.2 = length s.1.2.
Proof.
  destruct s as [[Sg ds] g]. intros Hres.
  apply resync_one_inv in Hres as (r & found & d & _ & _ & _ & ->).
  simpl. by rewrite length_insert, shuffle_length.
Qed.

(** With the resynced slot among the earlier slots and enough rewards, a
    resync step can only fail on a participant's history. *)
Lemma resync_one_raise_hist count (rs : list R) (i : Z) (s : R * list D * G) (e : exn) :
  0 ≤ count - (i + 1) →
  (count - (i + 1)) / Z.pos EPOCH_LENGTH < Z.of_nat (length rs) →
  s.1.2 ≠ [] →
  resync_one EPOCH_LENGTH count rs i s = Raise e → e = IndexError 89.
Proof.
  destruct s as [[Sg ds] g]. simpl. intros Hslot Hid Hne. unfold resync_one.
  rewrite Z.quot_div_nonneg by lia.
  destruct (py_index_in_range rs ((count - (i + 1)) / Z.pos EPOCH_LENGTH)) as [r ->].
  { split; [|done]. apply Z.div_pos; lia. }
  pose proof (shuffle_length ds g) as Hlen.
  destruct (shuffle ds g) as [ds1 g1]. simpl in Hlen.
  destruct (first_winner_at _ ds1 0) as [found|e1] eqn:Hf; simpl.
  - destruct (lookup_lt_is_Some_2 ds1 (default 0%nat found)) as [d ->]; [|done].
    destruct found as [idx|]; simpl.
    + apply first_winner_at_bound in Hf. lia.
    + rewrite Hlen. destruct ds; [done | simpl; lia].
  - intros [= <-]. by apply first_winner_at_raise in Hf.
Qed.

Lemma slot_work_raise_hist dbg hp count fr e :
  0 ≤ count →
  Z.of_nat (length (winners (self fr))) = count →
  slot_work EPOCH_LENGTH dbg hp count fr = Raise e →
  slot_rewards EPOCH_LENGTH dbg count fr ≠ [] →
  count / Z.pos EPOCH_LENGTH
  < Z.of_nat (length (slot_rewards EPOCH_LENGTH dbg count fr)) →
  e = IndexError 62 ∨ e = IndexError 89.
Proof.
  intros Hcount Hws Hw Hne Hrs. rewrite slot_work_eq in Hw.
  destruct (count_winners _ 0) as [w|e1] eqn:Hc; simpl in Hw.
  2:{ injection Hw as <-. left. by eapply count_winners_raise. }
  destruct (finalize _ _ _ _ _) as [s|e2] eqn:Hfin; simpl in Hw; [done|].
  injection Hw as <-. right. unfold finalize in Hfin. rewrite last_snoc in Hfin.
  destruct (decide (Some w = Some 1)) as [[= ->]|]; [|done].
  destruct (count_winners_one _ 0 Hc) as (i & d & Hi & _ & _ & Hpay).
  destruct (last (slot_rewards EPOCH_LENGTH dbg count fr)) as [r|] eqn:Hlast;
    [|by apply last_None in Hlast].
  rewrite (Hpay _ r Hlast) in Hfin. simpl in Hfin.
  assert (length (slot_ran dbg hp count fr).1.1 ≠ 0%nat) as Hlen.
  { apply lookup_lt_Some in Hi. lia. }
  apply (for_each_raise_inv _ (λ s, length s.1.2 = length (slot_ran dbg hp count fr).1.1))
    in Hfin as (c & s1 & Hcin & Hs1 & Hres).
  - apply elem_of_arange in Hcin.
    pose proof (merge_length_snoc_le (winners (self fr)) 1) as Hml.
    eapply resync_one_raise_hist; [| | |exact Hres].
    + lia.
    + eapply Z.le_lt_trans; [|exact Hrs]. apply Z.div_le_mono; lia.
    + intros Heq. rewrite Heq in Hs1. simpl in Hs1. lia.
  - intros c s1 s2 _ Hs1 Hstep. by rewrite (resync_one_length _ _ _ _ _ Hstep).
  - simpl. by rewrite length_insert.
Qed.

(** X4. A run on a table whose [winners] is empty, as [__init__] leaves
    it, can only stop on the assertion of line 96 or on a participant whose
    history is too short (lines 62 and 89): the engine's own reads of
    [rewards[-1]], [rewards[resync_reward_id]], [darkies[darkie_winning_idx]]
    and [acc] never fail. *)
Theorem fresh_run_exceptions dbg hp n fr0 e :
  winners (self fr0) = [] →
  run_slots EPOCH_LENGTH dbg hp n fr0 = Raise e →
  e = IndexError 62 ∨ e = IndexError 89 ∨ e = AssertionError 96.
Proof.
  intros Hfresh Hrun.
  apply run_slots_raise_at in Hrun as (k & frk & Hk & Hrunk & Hs).
  destruct (run_slots_winners dbg hp k fr0 frk Hrunk) as [(ws & Hws & Hlen) _].
  rewrite Hfresh in Hws. simpl in Hws.
  destruct (rewards_length_nat EPOCH_LENGTH dbg hp (Z.to_nat k) fr0 frk)
    as (added & Hadd & Hadded); [by rewrite Z2Nat.id by lia|].
  rewrite Z2Nat.id in Hadded by lia.
  assert (count_bound : k / Z.pos EPOCH_LENGTH
            < Z.of_nat (length (slot_rewards EPOCH_LENGTH dbg k frk))).
  { rewrite slot_rewards_cases, Hadd. rewrite (ceil_div_eq k) in Hadded by lia.
    destruct (decide (k `mod` Z.pos EPOCH_LENGTH = 0));
      rewrite !length_app; simpl; lia. }
  unfold slot in Hs. destruct (slot_work _ _ _ _ _) as [o|e1] eqn:Hw; simpl in Hs.
  - unfold slot_check in Hs.
    destruct (slot_work_acc_bound EPOCH_LENGTH dbg hp k frk o) as [x Hx]; [|done|].
    { apply (run_slots_ready EPOCH_LENGTH dbg hp k fr0); [lia | done]. }
    rewrite Hx in Hs. destruct (Rleb _ _); [done|]. injection Hs as <-. auto.
  - injection Hs as <-.
    destruct (slot_work_raise_hist dbg hp k frk e1) as [->| ->]; auto; [lia|..].
    + rewrite Hws, Hlen. lia.
    + intros Heq. rewrite Heq in count_bound. simpl in count_bound.
      pose proof (Z.div_pos k (Z.pos EPOCH_LENGTH)). lia.
Qed.

End Shuffled.

(** *** Participants that keep their history as the contract says *)

Section WithHistory.
Context `{!RandomShuffle G, !DarkieHistory R G D}.

Lemma run_darkies_hist (Sg : R) (fb : Z) (f : R) count hp (ds : list D) (ts : R) (g : G)
    (m : nat) :
  Forall (λ d, length (won_hist d) = m) ds →
  Forall (λ d, length (won_hist d) = S m) (run_darkies Sg fb f count hp ds ts g).1.1.
Proof.
  revert ts g. induction ds as [|d ds IH]; intros ts g Hall; simpl; [constructor|].
  inversion Hall as [|? ? Hd Hds]; subst.
  destruct (won_hist_run hp (set_sigma_feedback Sg fb f count hp d) g) as [b Hb].
  destruct (run hp (set_sigma_feedback Sg fb f count hp d) g) as [d1 g1].
  specialize (IH (Radd ts (stake d1)) g1 Hds).
  destruct (run_darkies Sg fb f count hp ds (Radd ts (stake d1)) g1) as [[ds1 ts1] g2].
  simpl in *. constructor; [|done].
  rewrite Hb, length_app, won_hist_set_sigma_feedback. simpl. lia.
Qed.

Lemma pay_winner_hist (rs : list R) (ds ds' : list D) (m : nat) :
  pay_winner rs ds = Ok ds' →
  Forall (λ d, length (won_hist d) = m) ds → Forall (λ d, length (won_hist d) = m) ds'.
Proof.
  revert ds'. induction ds as [|d ds IH]; intros ds' Hp Hall; simpl in Hp.
  - by injection Hp as <-.
  - inversion Hall as [|? ? Hd Hds]; subst.
    destruct (last (won_hist d)) as [[|]|]; [| |done].
    + destruct (last rs); [|done]. injection Hp as <-.
      constructor; [by rewrite won_hist_update_stake | done].
    + bind_inv Hp. injection Hp as <-. constructor; [done | by apply IH].
Qed.

Lemma resync_one_hist count (rs : list R) (i : Z) (s s' : R * list D * G) (m : nat) :
  resync_one EPOCH_LENGTH count rs i s = Ok s' →
  Forall (λ d, length (won_hist d) = m) s.1.2 →
  Forall (λ d, length (won_hist d) = m) s'.1.2.
Proof.
  destruct s as [[Sg ds] g]. intros Hres Hall.
  apply resync_one_inv in Hres as (r & found & d & _ & _ & Hd & ->). simpl in *.
  assert (Forall (λ d, length (won_hist d) = m) (shuffle ds g).1) as Hsh.
  { by rewrite shuffle_perm. }
  apply Forall_insert; [done|]. rewrite won_hist_resync_stake.
  by eapply (Forall_lookup_1 _ _ _ _ Hsh).
Qed.

Lemma finalize_hist count (rs : list R) (ws : list Z) (s s' : R * list D * G) (m : nat) :
  finalize EPOCH_LENGTH count rs ws s = Ok s' →
  Forall (λ d, length (won_hist d) = m) s.1.2 →
  Forall (λ d, length (won_hist d) = m) s'.1.2.
Proof.
  destruct s as [[Sg ds] g]. unfold finalize. intros Hfin Hall.
  destruct (decide (last ws = Some 1)); [|by injection Hfin as <-].
  bind_inv Hfin. destruct (last rs) as [r|]; [|done].
  eapply (for_each_invariant _ (λ s1, Forall (λ d, length (won_hist d) = m) s1.1.2));
    [| |exact Hfin].
  - intros c s1 s2 _ Hs1 Hstep. by eapply resync_one_hist.
  - simpl. by eapply pay_winner_hist.
Qed.

Lemma slot_hist dbg hp count fr fr' (m : nat) :
  slot EPOCH_LENGTH dbg hp count fr = Ok fr' →
  Forall (λ d, length (won_hist d) = m) (darkies (self fr)) →
  Forall (λ d, length (won_hist d) = S m) (darkies (self fr')).
Proof.
  intros Hs Hall. apply slot_inv in Hs as (o & Hw & <- & _).
  apply slot_work_inv in Hw as (w & _ & Hfin & _).
  apply (finalize_hist _ _ _ _ _ (S m)) in Hfin; [done|].
  simpl. unfold slot_ran. by apply run_darkies_hist.
Qed.

Lemma for_each_slot_hist dbg hp (l : list Z) fr0 frn (m : nat) :
  for_each (slot EPOCH_LENGTH dbg hp) l fr0 = Ok frn →
  Forall (λ d, length (won_hist d) = m) (darkies (self fr0)) →
  Forall (λ d, length (won_hist d) = (m + length l)%nat) (darkies (self frn)).
Proof.
  revert frn. induction l as [|c l IH] using rev_ind; intros frn Hrun Hall.
  - injection Hrun as <-. simpl. by rewrite Nat.add_0_r.
  - rewrite for_each_snoc in Hrun. bind_inv Hrun.
    rewrite length_app. simpl. replace (m + (length l + 1))%nat with (S (m + length l)) by lia.
    eapply slot_hist; [done|]. by apply IH.
Qed.

(** X5. The engine has every participant draw exactly once per slot: when
    [run] appends one outcome and no other call touches the history, the
    participants that all had [m] outcomes before a run of [n] slots all
    have [m + n] after it, whatever the payouts, resyncs and shuffles. *)
Theorem one_outcome_per_participant_per_slot dbg hp n fr0 frn (m : nat) :
  Forall (λ d, length (won_hist d) = m) (darkies (self fr0)) →
  run_slots EPOCH_LENGTH dbg hp n fr0 = Ok frn →
  Forall (λ d, length (won_hist d) = (m + Z.to_nat n)%nat) (darkies (self frn)).
Proof.
  intros Hall Hrun. apply (for_each_slot_hist _ _ _ _ _ m) in Hrun; [|done].
  by unfold arange in Hrun; rewrite length_fmap, length_seq in Hrun.
Qed.

End WithHistory.

Section OnlyAssertion.
Context `{!RandomShuffle G, !DarkieHistory R G D}.

Lemma count_winners_ok (ds : list D) (w0 : Z) :
  Forall (λ d, won_hist d ≠ []) ds → ∃ w, count_winners ds w0 = Ok w.
Proof.
  revert w0. induction ds as [|d ds IH]; intros w0 Hall; simpl; [by eexists|].
  inversion Hall as [|? ? Hd Hds]; subst.
  destruct (last (won_hist d)) as [b|] eqn:Hb; [by apply IH|].
  by apply last_None in Hb.
Qed.

Lemma first_winner_at_ok (sl : Z) (ds : list D) (i : nat) :
  Forall (λ d, is_Some (py_index (won_hist d) sl)) ds →
  ∃ found, first_winner_at sl ds i = Ok found.
Proof.
  revert i. induction ds as [|d ds IH]; intros i Hall; simpl; [by eexists|].
  inversion Hall as [|? ? [b Hb] Hds]; subst. rewrite Hb.
  destruct b; [by eexists | by apply IH].
Qed.

Lemma resync_one_raise_scan count (rs : list R) (i : Z) (s : R * list D * G) (e : exn) :
  0 ≤ count - (i + 1) →
  (count - (i + 1)) / Z.pos EPOCH_LENGTH < Z.of_nat (length rs) →
  s.1.2 ≠ [] →
  resync_one EPOCH_LENGTH count rs i s = Raise e →
  first_winner_at (count - (i + 1)) (shuffle s.1.2 s.2).1 0 = Raise e.
Proof.
  destruct s as [[Sg ds] g]. simpl. intros Hslot Hid Hne. unfold resync_one.
  rewrite Z.quot_div_nonneg by lia.
  destruct (py_index_in_range rs ((count - (i + 1)) / Z.pos EPOCH_LENGTH)) as [r ->].
  { split; [|done]. apply Z.div_pos; lia. }
  pose proof (shuffle_length ds g) as Hlen.
  destruct (shuffle ds g) as [ds1 g1]. simpl in *.
  destruct (first_winner_at _ ds1 0) as [found|e1] eqn:Hf; simpl; [|by intros [= <-]].
  destruct (lookup_lt_is_Some_2 ds1 (default 0%nat found)) as [d ->]; [|done].
  destruct found as [idx|]; simpl.
  - apply first_winner_at_bound in Hf. lia.
  - rewrite Hlen. destruct ds; [done | simpl; lia].
Qed.

(** A slot reached with as many [winners] entries and outcomes per
    participant as slots gone by, and enough rewards, does all its work. *)
Lemma slot_work_ok dbg hp count fr :
  0 ≤ count →
  Z.of_nat (length (winners (self fr))) = count →
  count / Z.pos EPOCH_LENGTH
  < Z.of_nat (length (slot_rewards EPOCH_LENGTH dbg count fr)) →
  Forall (λ d, length (won_hist d) = Z.to_nat count) (darkies (self fr)) →
  ∃ o, slot_work EPOCH_LENGTH dbg hp count fr = Ok o.
Proof.
  intros Hcount Hws Hrs Hall.
  destruct (slot_work EPOCH_LENGTH dbg hp count fr) as [o|e] eqn:Hw; [by eexists|].
  exfalso. rewrite slot_work_eq in Hw.
  assert (Forall (λ d, length (won_hist d) = S (Z.to_nat count))
            (slot_ran dbg hp count fr).1.1) as Hran.
  { unfold slot_ran. by apply run_darkies_hist. }
  destruct (count_winners_ok (slot_ran dbg hp count fr).1.1 0) as [w Hc].
  { eapply Forall_impl; [exact Hran|]. intros d Hd Hnil. simpl in Hd. by rewrite Hnil in Hd. }
  rewrite Hc in Hw. simpl in Hw.
  destruct (finalize _ _ _ _ _) as [s|e2] eqn:Hfin; simpl in Hw; [done|].
  clear Hw. unfold finalize in Hfin. rewrite last_snoc in Hfin.
  destruct (decide (Some w = Some 1)) as [[= ->]|]; [|done].
  destruct (count_winners_one _ 0 Hc) as (i & d & Hi & _ & _ & Hpay).
  destruct (last (slot_rewards EPOCH_LENGTH dbg count fr)) as [r|] eqn:Hlast.
  2:{ apply last_None in Hlast. rewrite Hlast in Hrs. simpl in Hrs.
      pose proof (Z.div_pos count (Z.pos EPOCH_LENGTH)). lia. }
  rewrite (Hpay _ r Hlast) in Hfin. simpl in Hfin.
  assert (length (slot_ran dbg hp count fr).1.1 ≠ 0%nat) as Hlen.
  { apply lookup_lt_Some in Hi. lia. }
  apply (for_each_raise_inv _
           (λ s, length s.1.2 = length (slot_ran dbg hp count fr).1.1 ∧
                 Forall (λ d, length (won_hist d) = S (Z.to_nat count)) s.1.2))
    in Hfin as (c & s1 & Hcin & [Hs1 Hhist] & Hres).
  - apply elem_of_arange in Hcin.
    pose proof (merge_length_snoc_le (winners (self fr)) 1) as Hml.
    apply resync_one_raise_scan in Hres.
    + destruct (first_winner_at_ok (count - (c + 1)) (shuffle s1.1.2 s1.2).1 0)
        as [found Hfound]; [|by rewrite Hfound in Hres].
      rewrite shuffle_perm. eapply Forall_impl; [exact Hhist|].
      intros d' Hd'. simpl in Hd'. apply py_index_in_range. lia.
    + lia.
    + eapply Z.le_lt_trans; [|exact Hrs]. apply Z.div_le_mono; lia.
    + intros Heq. rewrite Heq in Hs1. simpl in Hs1. lia.
  - intros c s1 s2 _ [Hs1 Hhist] Hstep. split.
    + by rewrite (resync_one_length _ _ _ _ _ Hstep).
    + by eapply resync_one_hist.
  - simpl. split; [by rewrite length_insert|].
    apply Forall_insert; [done|]. rewrite won_hist_update_stake.
    by eapply (Forall_lookup_1 _ _ _ _ Hran).
Qed.

Lemma run_slots_reach dbg hp k fr0 frk :
  0 ≤ k →
  winners (self fr0) = [] →
  Forall (λ d, won_hist d = []) (darkies (self fr0)) →
  run_slots EPOCH_LENGTH dbg hp k fr0 = Ok frk →
  Z.of_nat (length (winners (self frk))) = k ∧
  k / Z.pos EPOCH_LENGTH < Z.of_nat (length (slot_rewards EPOCH_LENGTH dbg k frk)) ∧
  Forall (λ d, length (won_hist d) = Z.to_nat k) (darkies (self frk)).
Proof.
  intros Hk Hfresh Hhist Hrun.
  destruct (run_slots_winners dbg hp k fr0 frk Hrun) as [(ws & Hws & Hlen) _].
  rewrite Hfresh in Hws. simpl in Hws. split; [rewrite Hws, Hlen; lia|]. split.
  - destruct (rewards_length_nat EPOCH_LENGTH dbg hp (Z.to_nat k) fr0 frk)
      as (added & Hadd & Hadded); [by rewrite Z2Nat.id by lia|].
    rewrite Z2Nat.id in Hadded by lia.
    rewrite slot_rewards_cases, Hadd. rewrite (ceil_div_eq k) in Hadded by lia.
    destruct (decide (k `mod` Z.pos EPOCH_LENGTH = 0));
      rewrite !length_app; simpl; lia.
  - apply (for_each_slot_hist _ _ _ _ _ 0) in Hrun.
    + by unfold arange in Hrun; rewrite length_fmap, length_seq in Hrun.
    + eapply Forall_impl; [exact Hhist|]. by intros d ->.
Qed.

(** X6. With participants that keep their history as the contract says
    and start without outcomes, a run on a fresh table can only be stopped
    by the assertion of line 96: no read of the engine fails. *)
Theorem fresh_run_stops_only_on_assertion dbg hp n fr0 e :
  winners (self fr0) = [] →
  Forall (λ d, won_hist d = []) (darkies (self fr0)) →
  run_slots EPOCH_LENGTH dbg hp n fr0 = Raise e →
  e = AssertionError 96.
Proof.
  intros Hfresh Hhist Hrun.
  apply run_slots_raise_at in Hrun as (k & frk & Hk & Hrunk & Hs).
  destruct (run_slots_reach dbg hp k fr0 frk) as (Hws & Hrs & Hall); [lia|done..|].
  destruct (slot_work_ok dbg hp k frk) as [o Hw]; [lia|done..|].
  unfold slot in Hs. rewrite Hw in Hs. simpl in Hs. unfold slot_check in Hs.
  destruct (slot_work_acc_bound EPOCH_LENGTH dbg hp k frk o) as [x Hx]; [|done|].
  { apply (run_slots_ready EPOCH_LENGTH dbg hp k fr0); [lia | done]. }
  rewrite Hx in Hs. destruct (Rleb _ _); [done|]. by injection Hs as <-.
Qed.

End OnlyAssertion.

(** *** What is minted is paid out *)

Section Accounting.
Context `{!RandomShuffle G, !NumberExact R, !DarkieStake R G D}.

Lemma foldl_Radd (a : R) (l : list R) : foldl Radd a l = Radd a (Rsum l).
Proof.
  unfold Rsum. revert a. induction l as [|x l IH]; intros a; simpl.
  - by rewrite Radd_comm, Radd_0_l.
  - by rewrite (IH (Radd a x)), (IH (Radd (Rint 0) x)), Radd_0_l, Radd_assoc.
Qed.

Lemma Rsum_cons (x : R) (l : list R) : Rsum (x :: l) = Radd x (Rsum l).
Proof. unfold Rsum at 1. simpl. by rewrite foldl_Radd, Radd_0_l. Qed.

Lemma Rsum_perm (l l' : list R) : l ≡ₚ l' → Rsum l = Rsum l'.
Proof.
  induction 1 as [|x l l' _ IH|x y l|l l' l'' _ IH1 _ IH2].
  - done.
  - by rewrite !Rsum_cons, IH.
  - by rewrite !Rsum_cons, !Radd_assoc, (Radd_comm y x).
  - by rewrite IH1.
Qed.

Lemma Rsum_insert (l : list R) (i : nat) (x r : R) :
  l !! i = Some x → Rsum (<[i := Radd x r]> l) = Radd (Rsum l) r.
Proof.
  revert i. induction l as [|y l IH]; intros [|i] Hi; simpl in Hi; try done.
  - injection Hi as ->. simpl. rewrite !Rsum_cons.
    by rewrite <- !Radd_assoc, (Radd_comm r).
  - simpl. by rewrite !Rsum_cons, (IH i Hi), Radd_assoc.
Qed.

Lemma run_darkies_stake (Sg : R) (fb : Z) (f : R) count hp (ds : list D) (ts : R) (g : G) :
  stake <$> (run_darkies Sg fb f count hp ds ts g).1.1 = stake <$> ds.
Proof.
  revert ts g. induction ds as [|d ds IH]; intros ts g; simpl; [done|].
  pose proof (stake_run hp (set_sigma_feedback Sg fb f count hp d) g) as Hd.
  destruct (run hp (set_sigma_feedback Sg fb f count hp d) g) as [d1 g1].
  specialize (IH (Radd ts (stake d1)) g1).
  destruct (run_darkies Sg fb f count hp ds (Radd ts (stake d1)) g1) as [[ds1 ts1] g2].
  change (stake d1 = stake (set_sigma_feedback Sg fb f count hp d)) in Hd.
  change (stake <$> ds1 = stake <$> ds) in IH.
  change (stake d1 :: (stake <$> ds1) = stake d :: (stake <$> ds)).
  by rewrite Hd, stake_set_sigma_feedback, IH.
Qed.

(** [balanced s0 s]: from [s0] to [s] the supply and the sum of the
    stakes grew by one and the same amount. *)
Local Abbreviation balanced s0 s :=
  (∃ paid : R, s.1.1 = Radd s0.1.1 paid ∧
     Rsum (stake <$> s.1.2) = Radd (Rsum (stake <$> s0.1.2)) paid).

Lemma balanced_refl (s : R * list D * G) : balanced s s.
Proof. exists (Rint 0). by rewrite !(Radd_comm _ (Rint 0)), !Radd_0_l. Qed.

Lemma balanced_trans (s0 s1 s2 : R * list D * G) :
  balanced s0 s1 → balanced s1 s2 → balanced s0 s2.
Proof.
  intros (p1 & HS1 & HT1) (p2 & HS2 & HT2). exists (Radd p1 p2).
  by rewrite HS2, HS1, HT2, HT1, !Radd_assoc.
Qed.

Lemma resync_one_balanced count (rs : list R) (i : Z) (s s' : R * list D * G) :
  resync_one EPOCH_LENGTH count rs i s = Ok s' → balanced s s'.
Proof.
  destruct s as [[Sg ds] g]. intros Hres.
  apply resync_one_inv in Hres as (r & found & d & _ & _ & Hd & ->).
  exists r. split; [done|]. simpl.
  rewrite list_fmap_insert, stake_resync_stake, Rsum_insert.
  - f_equal. apply Rsum_perm. by rewrite shuffle_perm.
  - by rewrite list_lookup_fmap, Hd.
Qed.

Lemma finalize_balanced count (rs : list R) (ws : list Z) (w0 : Z) (s s' : R * list D * G) :
  count_winners s.1.2 w0 = Ok (w0 + 1) →
  finalize EPOCH_LENGTH count rs ws s = Ok s' → balanced s s'.
Proof.
  destruct s as [[Sg ds] g]. unfold finalize. simpl. intros Hc Hfin.
  destruct (decide (last ws = Some 1)); [|injection Hfin as <-; apply balanced_refl].
  destruct (count_winners_one _ _ Hc) as (i & d & Hi & _ & _ & Hpay).
  bind_inv Hfin. destruct (last rs) as [r|] eqn:Hlast; [|done].
  rewrite (Hpay _ r Hlast) in Ha. injection Ha as <-.
  apply (balanced_trans (Sg, ds, g) (Radd Sg r, <[i := update_stake r d]> ds, g) s').
  - exists r. split; [done|]. simpl.
    rewrite list_fmap_insert, stake_update_stake, Rsum_insert; [done|].
    by rewrite list_lookup_fmap, Hi.
  - eapply (for_each_invariant _
              (λ s1, balanced (Radd Sg r, <[i := update_stake r d]> ds, g) s1));
      [|apply balanced_refl|exact Hfin].
    intros c s1 s2 _ Hs1 Hstep. eapply balanced_trans; [exact Hs1|].
    by eapply resync_one_balanced.
Qed.

Lemma slot_balanced dbg hp count fr fr' :
  slot EPOCH_LENGTH dbg hp count fr = Ok fr' →
  balanced (Sigma (self fr), darkies (self fr), rng fr)
           (Sigma (self fr'), darkies (self fr'), rng fr').
Proof.
  intros Hs. apply slot_inv in Hs as (o & Hw & <- & _).
  apply slot_work_inv in Hw as (w & Hc & Hfin & _).
  unfold finalize in Hfin. rewrite last_snoc in Hfin.
  destruct (decide (Some w = Some 1)) as [[= ->]|].
  - assert (finalize EPOCH_LENGTH count (slot_rewards EPOCH_LENGTH dbg count fr)
              (winners (self fr) ++ [1])
              (Sigma (self fr), (slot_ran dbg hp count fr).1.1,
               (slot_ran dbg hp count fr).2)
            = Ok (Sigma (self (out_frame o)), darkies (self (out_frame o)),
                  rng (out_frame o))) as Hfin'.
    { unfold finalize. by rewrite last_snoc, decide_True. }
    apply (finalize_balanced _ _ _ 0) in Hfin' as (paid & HS & HT); [|done].
    exists paid. split; [done|]. simpl in *.
    rewrite HT. unfold slot_ran. by rewrite run_darkies_stake.
  - injection Hfin as <- <- _. exists (Rint 0). simpl.
    rewrite !(Radd_comm _ (Rint 0)), !Radd_0_l. split; [done|].
    unfold slot_ran. by rewrite run_darkies_stake.
Qed.

(** X7. The engine pays out exactly what it mints: when payouts add the
    reward in full to the stake and no other call changes it, over any
    completed run the supply and the sum of the participants' stakes grow
    by one and the same amount (in exact arithmetic). *)
Theorem minted_equals_paid dbg hp n fr0 frn :
  run_slots EPOCH_LENGTH dbg hp n fr0 = Ok frn →
  ∃ paid : R,
    Sigma (self frn) = Radd (Sigma (self fr0)) paid ∧
    Rsum (stake <$> darkies (self frn))
    = Radd (Rsum (stake <$> darkies (self fr0))) paid.
Proof.
  unfold run_slots. intros Hrun.
  eapply (for_each_invariant _
            (λ fr, balanced (Sigma (self fr0), darkies (self fr0), rng fr0)
                            (Sigma (self fr), darkies (self fr), rng fr)));
    [|apply balanced_refl|exact Hrun].
  intros c s1 s2 _ Hs1 Hstep. eapply balanced_trans; [exact Hs1|].
  by eapply slot_balanced.
Qed.

End Accounting.

(** *** A run that cannot abort *)

Section NoAbort.
Context `{!RandomShuffle G, !NumberExact R, !NumberOrder R}.
Context `{!DarkieStake R G D, !DarkieHistory R G D}.
Hypothesis primary_nonneg :
  ∀ (x : R) dbg (p : P1), Rle (Rint 0) (pid_clipped x dbg p).1.

Lemma slot_rewards_nonneg dbg count fr :
  Forall (Rle (Rint 0)) (rewards (self fr)) →
  Forall (Rle (Rint 0)) (slot_rewards EPOCH_LENGTH dbg count fr).
Proof.
  intros Hrs. rewrite slot_rewards_cases. case_decide; [|done].
  apply Forall_app. split; [done|]. by constructor.
Qed.

Lemma slot_completes dbg hp count fr :
  0 ≤ count →
  Z.of_nat (length (winners (self fr))) = count →
  count / Z.pos EPOCH_LENGTH
  < Z.of_nat (length (slot_rewards EPOCH_LENGTH dbg count fr)) →
  Forall (λ d, length (won_hist d) = Z.to_nat count) (darkies (self fr)) →
  Forall (Rle (Rint 0)) (rewards (self fr)) →
  count `mod` Z.pos EPOCH_LENGTH = 0 ∨ ready fr →
  Rle (Rsum (stake <$> darkies (self fr))) (Sigma (self fr)) →
  ∃ fr', slot EPOCH_LENGTH dbg hp count fr = Ok fr'.
Proof.
  intros Hcount Hws Hrs Hhist Hnn Hready Hle.
  destruct (slot_work_ok dbg hp count fr) as [o Hw]; [done..|].
  exists (out_frame o). unfold slot. rewrite Hw. simpl. unfold slot_check.
  destruct (slot_work_acc_bound EPOCH_LENGTH dbg hp count fr o Hready Hw) as [x ->].
  apply slot_work_inv in Hw as (w & _ & Hfin & _ & _ & _ & _ & Hts & _).
  apply (finalize_supply EPOCH_LENGTH) in Hfin; [|by apply slot_rewards_nonneg].
  simpl in Hfin.
  assert (Rle (round1 (out_total_stake o)) (round1 (Sigma (self (out_frame o))))) as Hcheck.
  { apply round1_mono. eapply Rle_trans; [|exact Hfin].
    rewrite Hts, slot_ran_total. unfold slot_ran. by rewrite run_darkies_stake. }
  unfold Rle in Hcheck. by rewrite Hcheck.
Qed.

Lemma run_completes_nat dbg hp (m : nat) fr0 :
  winners (self fr0) = [] →
  Forall (λ d, won_hist d = []) (darkies (self fr0)) →
  Forall (Rle (Rint 0)) (rewards (self fr0)) →
  Rle (Rsum (stake <$> darkies (self fr0))) (Sigma (self fr0)) →
  ∃ frm, run_slots EPOCH_LENGTH dbg hp (Z.of_nat m) fr0 = Ok frm ∧
    Rle (Rsum (stake <$> darkies (self frm))) (Sigma (self frm)) ∧
    Forall (Rle (Rint 0)) (rewards (self frm)).
Proof.
  intros Hfresh Hhist Hnn Hle. induction m as [|m (frm & Hrun & Hlem & Hnnm)].
  - exists fr0. by rewrite run_slots_0.
  - rewrite Nat2Z.inj_succ, <- Z.add_1_r, run_slots_succ, Hrun by lia. simpl.
    destruct (run_slots_reach dbg hp (Z.of_nat m) fr0 frm) as (Hws & Hrs & Hall);
      [lia|done..|].
    destruct (slot_completes dbg hp (Z.of_nat m) frm) as [fr' Hs]; try done; [lia|..].
    { apply (run_slots_ready EPOCH_LENGTH dbg hp (Z.of_nat m) fr0); [lia | done]. }
    exists fr'. split; [done|].
    destruct (slot_supply EPOCH_LENGTH primary_nonneg dbg hp (Z.of_nat m) frm fr' Hnnm Hs)
      as [_ Hnn'].
    split; [|done].
    destruct (slot_balanced dbg hp (Z.of_nat m) frm fr' Hs) as (paid & HS & HT).
    simpl in HS, HT. rewrite HS, HT. by apply Radd_mono.
Qed.

(** X8. With participants that keep the contract (one outcome per [run],
    payouts added to the stake in full, nothing else changed), a primary
    controller whose output is never negative and exact arithmetic, a run
    on a fresh table whose stakes do not exceed the airdrop goes through
    all its slots: the assertion of line 96 never fires, and the stakes
    still do not exceed the supply at the end. *)
Theorem run_completes dbg hp n fr0 :
  winners (self fr0) = [] →
  Forall (λ d, won_hist d = []) (darkies (self fr0)) →
  Forall (Rle (Rint 0)) (rewards (self fr0)) →
  Rle (Rsum (stake <$> darkies (self fr0))) (Sigma (self fr0)) →
  ∃ frn, run_slots EPOCH_LENGTH dbg hp n fr0 = Ok frn ∧
    Rle (Rsum (stake <$> darkies (self frn))) (Sigma (self frn)).
Proof.
  intros Hfresh Hhist Hnn Hle.
  destruct (run_completes_nat dbg hp (Z.to_nat n) fr0) as (frn & Hrun & Hlen & _);
    [done..|].
  exists frn. split; [|done]. destruct (decide (0 ≤ n)) as [Hn|Hn].
  - by rewrite Z2Nat.id in Hrun.
  - replace (Z.to_nat n) with 0%nat in Hrun by lia. rewrite run_slots_0 in Hrun.
    unfold run_slots. by rewrite arange_nonpos by lia.
Qed.

End NoAbort.

(** *** A run that returns *)

Section Returns.
Context `{!RandomShuffle G, !NumberExact R, !NumberOrder R}.
Context `{!DarkieStake R G D, !DarkieHistory R G D}.
Hypothesis primary_nonneg :
  ∀ (x : R) dbg (p : P1), Rle (Rint 0) (pid_clipped x dbg p).1.

Lemma run_slots_participants dbg hp n fr0 frn :
  run_slots EPOCH_LENGTH dbg hp n fr0 = Ok frn →
  length (darkies (self frn)) = length (darkies (self fr0)).
Proof.
  intros Hrun.
  apply (run_slots_ident EPOCH_LENGTH (λ _ : D, ())) in Hrun; [|done..].
  apply Permutation_length in Hrun. by rewrite !length_fmap in Hrun.
Qed.

Lemma summaries_ok t :
  darkies t ≠ [] → rewards t ≠ [] → ∃ res, summaries t = Ok res.
Proof.
  intros Hds Hrs. unfold summaries, avg_stake_ratio, avg_apy, avg_apr, div_len.
  assert (length (darkies t) ≠ 0%nat) as Hd by (by destruct (darkies t)).
  assert (length (rewards t) ≠ 0%nat) as Hr by (by destruct (rewards t)).
  rewrite (decide_False (P := length (rewards t) = 0%nat)) by done.
  rewrite !(decide_False (P := length (darkies t) = 0%nat)) by done.
  by eexists.
Qed.

(** X9. [background] returns its tuple on well-behaved input: on a fresh
    table with at least one participant, stakes within the airdrop and a
    fixed [running_time >= 1], with participants that keep the contract, a
    primary controller that never outputs a negative reward and exact
    arithmetic, no exception is raised, one [winners] entry per slot and
    [ceil(running_time / EPOCH_LENGTH)] rewards are left in the table, and
    the stakes do not exceed the supply. *)
Theorem background_returns dbg hp t (g : G) :
  winners t = [] → rewards t = [] →
  Forall (λ d, won_hist d = []) (darkies t) → darkies t ≠ [] →
  1 ≤ running_time t →
  Rle (Rsum (stake <$> darkies t)) (Sigma t) →
  ∃ res fr,
    background EPOCH_LENGTH false dbg hp t g = Ok (res, fr) ∧
    Z.of_nat (length (winners (self fr))) = running_time t ∧
    Z.of_nat (length (rewards (self fr))) = ceil_div (running_time t) (Z.pos EPOCH_LENGTH) ∧
    length (darkies (self fr)) = length (darkies t) ∧
    Rle (Rsum (stake <$> darkies (self fr))) (Sigma (self fr)).
Proof.
  intros Hws Hrs Hhist Hds Hrt Hle.
  set (fr0 := mkFrame (mkTable (Sigma t) (darkies t) (running_time t) (secondary_pid t)
                         (primary_pid t) dbg (rewards t) (winners t)) 0 None g).
  assert (enter false dbg t g = Ok fr0) as He by done.
  destruct (run_completes_nat primary_nonneg dbg hp (Z.to_nat (running_time t)) fr0)
    as (frn & Hrun & Hlen & _); [done| done | by simpl; rewrite Hrs | done |].
  rewrite Z2Nat.id in Hrun by lia.
  destruct (run_slots_winners dbg hp _ _ _ Hrun) as [(ws & Hws' & Hwl) _].
  assert (Z.of_nat (length (rewards (self frn)))
          = ceil_div (running_time t) (Z.pos EPOCH_LENGTH)) as Hrl.
  { destruct (rewards_length_nat EPOCH_LENGTH dbg hp (Z.to_nat (running_time t)) fr0 frn)
      as (added & Hadd & Hadded); [by rewrite Z2Nat.id by lia|].
    rewrite Z2Nat.id in Hadded by lia. rewrite Hadd. simpl. by rewrite Hrs. }
  pose proof (run_slots_participants dbg hp _ _ _ Hrun) as Hpl.
  destruct (proj2 (run_slots_safe EPOCH_LENGTH dbg hp _ fr0) frn Hrt Hrun) as [_ Hne].
  destruct (summaries_ok (self frn)) as [res Hres]; [|done|].
  { intros Hnil. rewrite Hnil in Hpl. by destruct (darkies t). }
  exists res, frn. split.
  - unfold background. rewrite He. simpl. rewrite Hrun. simpl. by rewrite Hres.
  - split; [|split; [exact Hrl|by split]].
    simpl in Hws'. rewrite Hws', Hws. simpl. rewrite Hwl. lia.
Qed.

End Returns.

(** *** [write] after a run *)

Section WriteAfterRun.
Context {T Err : Type}.
Variable Tsub : T → T → T.
Variable Tdiv : T → Z → T.
Variable timedelta_str : T → string.
Variable str : R → string.
Variable outside : effect D P2 → option Err.









Lemma and_then_ok (ca cb : list (effect D P2)) :
  and_then (Err := Err) (ca, None) (cb, None) = (ca ++ cb, None).
Proof. reflexivity. Qed.


End WriteAfterRun.

(** *** Who receives a resync payout *)

Lemma first_winner_at_spec (sl : Z) (ds : list D) (i0 : nat) (found : option nat) :
  first_winner_at sl ds i0 = Ok found →
  match found with
  | Some idx =>
      ∃ q d, idx = (i0 + q)%nat ∧ ds !! q = Some d ∧
        py_index (won_hist d) sl = Some true ∧
        ∀ j d', (j < q)%nat → ds !! j = Some d' → py_index (won_hist d') sl = Some false
  | None => Forall (λ d, py_index (won_hist d) sl = Some false) ds
  end.
Proof.
  revert i0. induction ds as [|d ds IH]; intros i0 Hf; simpl in Hf.
  - injection Hf as <-. constructor.
  - destruct (py_index (won_hist d) sl) as [[|]|] eqn:Hd; [| |done].
    + injection Hf as <-. exists 0%nat, d. split; [lia|]. split; [done|].
      split; [done|]. intros j d' Hj. lia.
    + apply IH in Hf. destruct found as [idx|].
      * destruct Hf as (q & d0 & -> & Hk & Hwon & Hbefore).
        exists (S q), d0. split; [lia|]. split; [done|]. split; [done|].
        intros [|j] d' Hj Hd'; simpl in Hd'; [by injection Hd' as <-|].
        apply (Hbefore j); [lia | done].
      * by constructor.
Qed.

(** X12. A resync step that finds a winner of the resolved slot pays the
    first one in the shuffled order: every participant before it in that
    order has a false entry at the slot, [resync_stake] is applied to it
    and to no other participant, and the supply grows by the same reward,
    the one of the epoch of the resolved slot. *)
Theorem resync_pays_first_winner count (rs : list R) (i : Z) (Sg : R) (ds : list D) (g : G)
    (s' : R * list D * G) (d0 : D) :
  resync_one EPOCH_LENGTH count rs i (Sg, ds, g) = Ok s' →
  d0 ∈ (shuffle ds g).1 →
  py_index (won_hist d0) (count - (i + 1)) = Some true →
  ∃ idx d r,
    (shuffle ds g).1 !! idx = Some d ∧
    py_index (won_hist d) (count - (i + 1)) = Some true ∧
    (∀ j d', (j < idx)%nat → (shuffle ds g).1 !! j = Some d' →
       py_index (won_hist d') (count - (i + 1)) = Some false) ∧
    py_index rs (Z.quot (count - (i + 1)) (Z.pos EPOCH_LENGTH)) = Some r ∧
    s' = (Radd Sg r, <[idx := resync_stake r d]> (shuffle ds g).1, (shuffle ds g).2).
Proof.
  intros Hres Hin Hwon.
  apply resync_one_inv in Hres as (r & found & d & Hr & Hf & Hd & ->).
  apply first_winner_at_spec in Hf. destruct found as [idx|].
  - destruct Hf as (q & d1 & -> & Hk & Hwon1 & Hbefore). simpl in Hd.
    rewrite Hk in Hd. injection Hd as <-. by exists q, d1, r.
  - rewrite Forall_forall in Hf. specialize (Hf d0 Hin). congruence.
Qed.

(** *** The slots a finalization resolves *)

Lemma resync_one_resolve count (rs : list R) (i : Z) (s : R * list D * G) :
  resync_one EPOCH_LENGTH count rs i s = resolve_slot EPOCH_LENGTH rs (count - (i + 1)) s.
Proof. by destruct s as [[Sg ds] g]. Qed.

Lemma for_each_fmap {E S : Type} (body : Z → S → result E S) (f : Z → Z) (l : list Z)
    (s : S) :
  for_each (λ i, body (f i)) l s = for_each body (f <$> l) s.
Proof.
  revert s. induction l as [|i l IH]; intros s; simpl; [done|].
  destruct (body (f i) s) as [s1|e]; simpl; [apply IH | done].
Qed.

(** A finalizing slot pays its winner, adds [rewards[-1]] to the supply
    and then resolves the slots [count - 1] down to [count - merge_length],
    one after the other. *)
Lemma finalize_resolves count (rs : list R) (ws : list Z) (s : R * list D * G) :
  last ws = Some 1 →
  finalize EPOCH_LENGTH count rs ws s
  = ds1 ← pay_winner rs s.1.2;
    match last rs with
    | None => Raise (IndexError 72)
    | Some r =>
        for_each (resolve_slot EPOCH_LENGTH rs) (resolved_slots count ws)
                 (Radd s.1.1 r, ds1, s.2)
    end.
Proof.
  intros Hlast. destruct s as [[Sg ds] g]. unfold finalize, resolved_slots.
  rewrite decide_True by done. simpl.
  destruct (pay_winner rs ds) as [ds1|e]; simpl; [|done].
  destruct (last rs) as [r|]; [|done].
  rewrite <- for_each_fmap. clear. generalize (Radd Sg r, ds1, g).
  induction (arange (Z.of_nat (merge_length ws))) as [|i l IH]; intros s; simpl; [done|].
  rewrite resync_one_resolve.
  destruct (resolve_slot EPOCH_LENGTH rs (count - (i + 1)) s) as [s1|e]; simpl;
    [apply IH | done].
Qed.

Lemma resolved_slots_lookup count (ws : list Z) (i : nat) :
  (i < merge_length ws)%nat →
  resolved_slots count ws !! i = Some (count - (Z.of_nat i + 1)).
Proof.
  intros Hi. unfold resolved_slots, arange.
  rewrite !list_lookup_fmap, lookup_seq_lt by lia. done.
Qed.

Lemma resolved_slots_length count (ws : list Z) :
  length (resolved_slots count ws) = merge_length ws.
Proof.
  unfold resolved_slots, arange. rewrite !length_fmap, length_seq. lia.
Qed.

End Coverage.

(** ** Further properties of the explorer *)

Section ViewsProps.
Context {Exc Block Transactions Transaction Blocks Stats Html : Type}.
Variable get_last_n_blocks : string → result Exc Blocks.
Variable get_basic_statistics : result Exc Stats.
Variable get_block : string → result Exc Block.
Variable get_block_transactions : string → result Exc Transactions.
Variable get_transaction : string → result Exc Transaction.
Variable render_template :
  string → @Views.context Block Transactions Transaction Blocks Stats → result Exc Html.

Local Abbreviation search :=
  (Views.search get_block get_block_transactions get_transaction render_template).
Local Abbreviation block :=
  (Views.block get_block get_block_transactions render_template).
Local Abbreviation transaction := (Views.transaction get_transaction render_template).

(** X11. [search] answers as the block view does when that view succeeds
    and as the transaction view does otherwise, and it sends: the block
    request first, the request for the block's transactions only after the
    block was found, and the transaction request only after the block
    attempt raised; every request carries the searched hash and there are
    no others. *)
Theorem search_requests (search_hash : string) (sent : list Views.request) :
  (search search_hash sent).1
  = match (block search_hash sent).1 with
    | Ok page => Ok page
    | Raise _ => (transaction search_hash sent).1
    end ∧
  (search search_hash sent).2
  = sent ++ [Views.GetBlock search_hash]
    ++ match get_block search_hash with
       | Ok _ => [Views.GetBlockTransactions search_hash]
       | Raise _ => []
       end
    ++ match (block search_hash sent).1 with
       | Ok _ => []
       | Raise _ => [Views.GetTransaction search_hash]
       end.
Proof.
  unfold Views.search, Views.block, Views.transaction, Views.try_except, Views.bind,
    Views.await, Views.lift.
  destruct (get_block search_hash) as [b|e1]; simpl.
  - destruct (get_block_transactions search_hash) as [txs|e2]; simpl.
    + destruct (render_template "block.html" (Views.BlockCtx b txs)) as [page|e3]; simpl.
      * split; [done|]. by rewrite <- !app_assoc.
      * destruct (get_transaction search_hash); simpl; by rewrite <- !app_assoc.
    + destruct (get_transaction search_hash); simpl; by rewrite <- !app_assoc.
  - destruct (get_transaction search_hash); simpl; by rewrite <- !app_assoc.
Qed.

End ViewsProps.

(** ** The further properties on scripted runs *)

Lemma number_Z_exact : @NumberExact Z Scripted.number_Z.
Proof.
  split; unfold Rle; simpl; unfold id; intros; rewrite ?Z.leb_le in *; lia.
Qed.

Lemma darkie_scripted_history :
  @DarkieHistory Z nat Scripted.sdarkie Scripted.darkie_scripted.
Proof. split; try done. intros hp d g. by eexists. Qed.

Lemma darkie_scripted_stake :
  @DarkieStake Z nat Scripted.sdarkie Scripted.number_Z Scripted.darkie_scripted.
Proof. by split. Qed.

(** Slot 1 of the run of two participants appends the count 1. *)
Lemma winners_entry_witness :
  ∃ fr o,
    Scripted.run_slots 1 (Scripted.table 300 2 7 Scripted.two_darkies) = Ok fr ∧
    slot_work (primary := Scripted.constant_pid) (secondary := Scripted.constant_pid)
      (Number0 := Scripted.number_Z) (Random0 := Scripted.random_nat)
      (Darkie0 := Scripted.darkie_scripted) Scripted.EL false true 1 fr = Ok o ∧
    winners (self (out_frame o)) = [0; 1] ∧ feedback (out_frame o) = 1.
Proof.
  eexists _, _. split; [vm_compute; reflexivity|].
  match goal with
  | |- ?H ∧ _ => assert H as Hw by (vm_compute; reflexivity)
  end.
  split; [exact Hw|].
  destruct (winners_entry (primary := Scripted.constant_pid)
              (secondary := Scripted.constant_pid) (Number0 := Scripted.number_Z)
              (Random0 := Scripted.random_nat) (Darkie0 := Scripted.darkie_scripted)
              Scripted.EL false true 1 _ _ Hw) as (w & Hws & Hw1 & _ & Hfb).
  vm_compute in Hw1. subst w. split; [exact Hws | exact Hfb].
Defined.

(** The run of two slots leaves two [winners] entries. *)
Lemma one_winners_entry_per_slot_witness :
  ∃ res fr,
    Scripted.background (Scripted.table 300 2 7 Scripted.two_darkies) = Ok (res, fr) ∧
    running_time (self fr) = 2 ∧ length (winners (self fr)) = 2%nat.
Proof.
  eexists _, _.
  match goal with
  | |- ?H ∧ _ => assert H as Hb by (vm_compute; reflexivity)
  end.
  split; [exact Hb|].
  destruct (one_winners_entry_per_slot (primary := Scripted.constant_pid)
              (secondary := Scripted.constant_pid) (Number0 := Scripted.number_Z)
              (Random0 := Scripted.random_nat) (Darkie0 := Scripted.darkie_scripted)
              Scripted.EL false false true _ 0%nat _ _ Hb) as (Hrt & ws & Hws & Hlen).
  split; [exact Hrt|]. rewrite Hws, length_app, Hlen. reflexivity.
Defined.

(** Slot 3 of the run with winners [1, 0, 0, 1] adds the reward of slot 3
    and those of the two slots it resolves. *)
Lemma supply_accounting_witness :
  ∃ fr o,
    Scripted.run_slots 3 (Scripted.table 300 4 7 Scripted.one_darkie) = Ok fr ∧
    slot_work (primary := Scripted.constant_pid) (secondary := Scripted.constant_pid)
      (Number0 := Scripted.number_Z) (Random0 := Scripted.random_nat)
      (Darkie0 := Scripted.darkie_scripted) Scripted.EL false true 3 fr = Ok o ∧
    Sigma (self fr) = 307 ∧ Sigma (self (out_frame o)) = 307 + 7 + 7 + 7.
Proof.
  eexists _, _. split; [vm_compute; reflexivity|].
  match goal with
  | |- ?H ∧ _ => assert H as Hw by (vm_compute; reflexivity)
  end.
  split; [exact Hw|]. split; [reflexivity|].
  pose proof (supply_accounting (primary := Scripted.constant_pid)
                (secondary := Scripted.constant_pid) (Number0 := Scripted.number_Z)
                (Random0 := Scripted.random_nat) (Darkie0 := Scripted.darkie_scripted)
                Scripted.EL false true 3 _ _ Hw) as Hacc.
  case_decide; [|done].
  destruct Hacc as (r & rrs & Hlast & Hall & Hsum).
  injection Hlast as <-.
  apply Forall2_cons_inv_l in Hall as (r1 & rrs1 & Hr1 & Hall & ->).
  apply Forall2_cons_inv_l in Hall as (r2 & rrs2 & Hr2 & Hall & ->).
  apply Forall2_nil_inv_l in Hall as ->.
  injection Hr1 as <-. injection Hr2 as <-. exact Hsum.
Defined.

(** With an airdrop of 100 against stakes of 200 the run stops on the
    assertion. *)
Lemma fresh_run_exceptions_witness :
  Scripted.run_slots 2 (Scripted.table 100 2 7 Scripted.two_darkies)
  = Raise (AssertionError 96) ∧
  (AssertionError 96 = IndexError 62 ∨ AssertionError 96 = IndexError 89 ∨
   AssertionError 96 = AssertionError 96).
Proof.
  split; [vm_compute; reflexivity|].
  refine (fresh_run_exceptions (primary := Scripted.constant_pid)
            (secondary := Scripted.constant_pid) (Number0 := Scripted.number_Z)
            (Random0 := Scripted.random_nat) (Darkie0 := Scripted.darkie_scripted)
            Scripted.EL (RandomShuffle0 := random_nat_shuffle) false true 2
            (Scripted.start (Scripted.table 100 2 7 Scripted.two_darkies)) _ _ _);
    [reflexivity | vm_compute; reflexivity].
Defined.

(** After seven slots both participants have seven outcomes. *)
Lemma one_outcome_per_participant_per_slot_witness :
  ∃ frn,
    Scripted.run_slots 7 (Scripted.table 300 7 7 Scripted.two_darkies) = Ok frn ∧
    Forall (λ d, length (Scripted.sd_won d) = 7%nat) (darkies (self frn)).
Proof.
  eexists. split; [vm_compute; reflexivity|].
  refine (one_outcome_per_participant_per_slot (primary := Scripted.constant_pid)
            (secondary := Scripted.constant_pid) (Number0 := Scripted.number_Z)
            (Random0 := Scripted.random_nat) (Darkie0 := Scripted.darkie_scripted)
            Scripted.EL (RandomShuffle0 := random_nat_shuffle)
            (DarkieHistory0 := darkie_scripted_history) false true 7
            (Scripted.start (Scripted.table 300 7 7 Scripted.two_darkies)) _ 0 _ _);
    [by repeat constructor | vm_compute; reflexivity].
Defined.

Lemma fresh_run_stops_only_on_assertion_witness :
  Scripted.run_slots 2 (Scripted.table 100 2 7 Scripted.two_darkies)
  = Raise (AssertionError 96) ∧
  AssertionError 96 = AssertionError 96.
Proof.
  split; [vm_compute; reflexivity|].
  refine (fresh_run_stops_only_on_assertion (primary := Scripted.constant_pid)
            (secondary := Scripted.constant_pid) (Number0 := Scripted.number_Z)
            (Random0 := Scripted.random_nat) (Darkie0 := Scripted.darkie_scripted)
            Scripted.EL (RandomShuffle0 := random_nat_shuffle)
            (DarkieHistory0 := darkie_scripted_history) false true 2
            (Scripted.start (Scripted.table 100 2 7 Scripted.two_darkies)) _ _ _ _);
    [reflexivity | by repeat constructor | vm_compute; reflexivity].
Defined.

(** In the run of two slots 14 is minted and 14 is paid. *)
Lemma minted_equals_paid_witness :
  ∃ frn paid,
    Scripted.run_slots 2 (Scripted.table 300 2 7 Scripted.two_darkies) = Ok frn ∧
    Sigma (self frn) = 300 + paid ∧
    foldl Z.add 0 (Scripted.sd_stake <$> darkies (self frn)) = 200 + paid.
Proof.
  eexists.
  assert (∃ frn, Scripted.run_slots 2 (Scripted.table 300 2 7 Scripted.two_darkies)
                 = Ok frn) as [frn Hrun] by (eexists; vm_compute; reflexivity).
  destruct (minted_equals_paid (primary := Scripted.constant_pid)
              (secondary := Scripted.constant_pid) (Number0 := Scripted.number_Z)
              (Random0 := Scripted.random_nat) (Darkie0 := Scripted.darkie_scripted)
              Scripted.EL (RandomShuffle0 := random_nat_shuffle)
              (NumberExact0 := number_Z_exact) (DarkieStake0 := darkie_scripted_stake)
              false true 2 _ frn Hrun) as (paid & HS & HT).
  exists paid. vm_compute in Hrun. injection Hrun as <-.
  split; [vm_compute; reflexivity|]. split; [exact HS | exact HT].
Defined.

(** With the controller clipped at 0 the run of seven slots goes through. *)
Lemma run_completes_witness :
  ∃ frn,
    run_slots (primary := Scripted.clipped_pid) (secondary := Scripted.constant_pid)
      (Number0 := Scripted.number_Z) (Random0 := Scripted.random_nat)
      (Darkie0 := Scripted.darkie_scripted) Scripted.EL false true 7
      (Scripted.start (Scripted.table 300 7 7 Scripted.two_darkies)) = Ok frn ∧
    @Rle Z Scripted.number_Z
      (@Rsum Z Scripted.number_Z
         (@stake Z nat Scripted.sdarkie Scripted.darkie_scripted <$> darkies (self frn)))
      (Sigma (self frn)).
Proof.
  refine (run_completes (primary := Scripted.clipped_pid)
            (secondary := Scripted.constant_pid) (Number0 := Scripted.number_Z)
            (Random0 := Scripted.random_nat) (Darkie0 := Scripted.darkie_scripted)
            Scripted.EL (RandomShuffle0 := random_nat_shuffle)
            (NumberExact0 := number_Z_exact) (NumberOrder0 := number_Z_order)
            (DarkieStake0 := darkie_scripted_stake)
            (DarkieHistory0 := darkie_scripted_history)
            clipped_pid_nonneg false true 7
            (Scripted.start (Scripted.table 300 7 7 Scripted.two_darkies)) _ _ _ _);
    [reflexivity | by repeat constructor | constructor | reflexivity].
Defined.

(** [background] returns on the table built by [__init__] and two
    [add_darkie] calls. *)
Lemma background_returns_witness :
  ∃ res fr,
    background (primary := Scripted.clipped_pid) (secondary := Scripted.constant_pid)
      (Number0 := Scripted.number_Z) (Random0 := Scripted.random_nat)
      (Darkie0 := Scripted.darkie_scripted) Scripted.EL false false true
      (Samples.fresh_table 300 7 7 Scripted.two_darkies) 0%nat = Ok (res, fr) ∧
    length (winners (self fr)) = 7%nat ∧ length (rewards (self fr)) = 2%nat.
Proof.
  destruct (background_returns (primary := Scripted.clipped_pid)
              (secondary := Scripted.constant_pid) (Number0 := Scripted.number_Z)
              (Random0 := Scripted.random_nat) (Darkie0 := Scripted.darkie_scripted)
              Scripted.EL (RandomShuffle0 := random_nat_shuffle)
              (NumberExact0 := number_Z_exact) (NumberOrder0 := number_Z_order)
              (DarkieStake0 := darkie_scripted_stake)
              (DarkieHistory0 := darkie_scripted_history)
              clipped_pid_nonneg false true
              (Samples.fresh_table 300 7 7 Scripted.two_darkies) 0%nat)
    as (res & fr & Hb & Hws & Hrs & _); try reflexivity.
  - by repeat constructor.
  - discriminate.
  - simpl. lia.
  - exists res, fr. split; [exact Hb|].
    change (running_time (Samples.fresh_table 300 7 7 Scripted.two_darkies)) with 7
      in Hws, Hrs.
    change (ceil_div 7 (Z.pos Scripted.EL)) with 2 in Hrs. split; lia.
Defined.


(** A slot won by the second participant of three is resynced to it,
    although the shuffle puts another participant first. *)
Lemma resync_pays_first_winner_witness :
  ∃ s',
    resync_one (Number0 := Scripted.number_Z) (Random0 := Scripted.random_nat)
      (Darkie0 := Scripted.darkie_scripted) Scripted.EL 1 [7] 0
      (300, [Scripted.mkSD 1 100 [false] [] [] []; Scripted.mkSD 2 100 [true] [] [] [];
             Scripted.mkSD 3 100 [true] [] [] []], 0%nat) = Ok s' ∧
    Scripted.sd_resyncs <$> s'.1.2 = [[7]; []; []] ∧
    Scripted.sd_id <$> s'.1.2 = [3; 2; 1]%nat.
Proof.
  eexists.
  match goal with
  | |- ?H ∧ _ => assert H as Hres by (vm_compute; reflexivity)
  end.
  split; [exact Hres|].
  destruct (resync_pays_first_winner (Number0 := Scripted.number_Z)
              (Random0 := Scripted.random_nat) (Darkie0 := Scripted.darkie_scripted)
              Scripted.EL 1 [7] 0 300 _ 0%nat _ (Scripted.mkSD 2 100 [true] [] [] []) Hres)
    as (idx & d & r & _ & _ & _ & _ & Heq).
  - simpl. apply list_elem_of_In. simpl. tauto.
  - reflexivity.
  - by split.
Defined.

(** ** The end-of-slot check and the resync window *)

(** C1. One participant with a stake of 105, an airdrop of 100 and a
    reward of 7; the participant wins both slots. Both checks of line 96
    pass and the run returns, while the sum of the stakes exceeds the
    supply after each slot (112 against 107, then 119 against 114): the
    check holds [total_stake], taken before the payout (105, then 112),
    against the supply after it. *)
Theorem stale_total_stake_passes_check :
  ∃ res fr1 o fr2,
    Scripted.run_slots 1 (Scripted.table 100 2 7 Samples.overstaked) = Ok fr1 ∧
    slot_work (primary := Scripted.constant_pid) (secondary := Scripted.constant_pid)
      (Number0 := Scripted.number_Z) (Random0 := Scripted.random_nat)
      (Darkie0 := Scripted.darkie_scripted) Scripted.EL false true 1 fr1 = Ok o ∧
    out_frame o = fr2 ∧
    Scripted.background (Scripted.table 100 2 7 Samples.overstaked) = Ok (res, fr2) ∧
    foldl Z.add 0 (Scripted.sd_stake <$> darkies (self fr1)) = 112 ∧
    Sigma (self fr1) = 107 ∧
    out_total_stake o = 112 ∧ Sigma (self fr2) = 114 ∧
    Z.leb (out_total_stake o) (Sigma (self fr2)) = true ∧
    foldl Z.add 0 (Scripted.sd_stake <$> darkies (self fr2)) = 119 ∧
    Z.leb (foldl Z.add 0 (Scripted.sd_stake <$> darkies (self fr2))) (Sigma (self fr2))
    = false.
Proof.
  eexists _, _, _, _. split; [vm_compute; reflexivity|].
  split; [vm_compute; reflexivity|]. split; [reflexivity|].
  split; [vm_compute; reflexivity|]. by repeat split.
Qed.

(** C4. When a slot finalizes, [merge_length] is the number of consecutive
    entries different from 1 met when [winners] is read backward from the
    entry before the current slot's, and the finalization, after the payout,
    resolves exactly the slots [count - 1] down to [count - merge_length],
    one after the other, each by lines 82-93. For [winners = [1, 0, 0, 1]]
    the finalization of slot 3 resolves slot 2 and then slot 1. *)
Theorem resync_scan_window :
  (∀ ws : list Z, ∃ pre rest,
      rev (removelast ws) = pre ++ rest ∧ Forall (λ w, w ≠ 1) pre ∧
      (rest = [] ∨ ∃ rest', rest = 1 :: rest') ∧
      merge_length ws = length pre) ∧
  (∀ (R G D : Type) (HN : Number R) (HR : Random G) (HD : Darkie R G D)
     (EPOCH_LENGTH : positive) (count : Z) (rs : list R) (ws : list Z)
     (s : R * list D * G),
      last ws = Some 1 →
      (finalize EPOCH_LENGTH count rs ws s
       = ds1 ← pay_winner rs s.1.2;
         match last rs with
         | None => Raise (IndexError 72)
         | Some r =>
             for_each (resolve_slot EPOCH_LENGTH rs) (resolved_slots count ws)
                      (Radd s.1.1 r, ds1, s.2)
         end) ∧
      length (resolved_slots count ws) = merge_length ws ∧
      (∀ i : nat, (i < merge_length ws)%nat →
         resolved_slots count ws !! i = Some (count - (Z.of_nat i + 1))) ∧
      (∀ i : Z, resync_one EPOCH_LENGTH count rs i s
                = resolve_slot EPOCH_LENGTH rs (count - (i + 1)) s)) ∧
  (∀ (R G D : Type) (HN : Number R) (HR : Random G) (HD : Darkie R G D)
     (EPOCH_LENGTH : positive) (rs : list R) (s : R * list D * G),
      finalize EPOCH_LENGTH 3 rs [1; 0; 0; 1] s
      = ds1 ← pay_winner rs s.1.2;
        match last rs with
        | None => Raise (IndexError 72)
        | Some r =>
            s1 ← resolve_slot EPOCH_LENGTH rs 2 (Radd s.1.1 r, ds1, s.2);
            resolve_slot EPOCH_LENGTH rs 1 s1
        end).
Proof.
  split; [exact merge_length_spec|]. split.
  - intros R G D HN HR HD EL count rs ws s Hlast. split; [by apply finalize_resolves|].
    split; [apply resolved_slots_length|]. split; [apply resolved_slots_lookup|].
    intros i. apply resync_one_resolve.
  - intros R G D HN HR HD EL rs s. rewrite finalize_resolves by done.
    change (resolved_slots 3 [1; 0; 0; 1]) with [2; 1].
    generalize (resolve_slot EL rs). intros f.
    destruct (pay_winner rs s.1.2) as [ds1|e]; [|done].
    destruct (last rs) as [r|]; [|done]. simpl.
    destruct (f 2 (Radd s.1.1 r, ds1, s.2)) as [s1|e]; simpl; [|done].
    by destruct (f 1 s1).
Qed.

(** Three participants, winners [1, 0, 0, 1]: at slot 3 the engine resolves
    slot 2, paid to participant 3 (first after the shuffle), and then
    slot 1, paid to participant 1 (first after the next shuffle). *)
Lemma resync_scan_window_witness :
  ∃ fr3 fr4,
    Scripted.run_slots 3 (Scripted.table 300 4 7 Samples.three_darkies) = Ok fr3 ∧
    Scripted.run_slots 4 (Scripted.table 300 4 7 Samples.three_darkies) = Ok fr4 ∧
    winners (self fr4) = [1; 0; 0; 1] ∧
    last (winners (self fr4)) = Some 1 ∧
    (1 < merge_length (winners (self fr4)))%nat ∧
    length (resolved_slots 3 (winners (self fr4))) = 2%nat ∧
    resolved_slots 3 (winners (self fr4)) !! 0%nat = Some 2 ∧
    resolved_slots 3 (winners (self fr4)) !! 1%nat = Some 1 ∧
    finalize (Number0 := Scripted.number_Z) (Random0 := Scripted.random_nat)
      (Darkie0 := Scripted.darkie_scripted) Scripted.EL 3 [7] (winners (self fr4))
      (307, (λ d, Scripted.mkSD (Scripted.sd_id d) (Scripted.sd_stake d)
                    (Scripted.sd_won d ++ [hd false (Scripted.sd_script d)])
                    (tl (Scripted.sd_script d)) (Scripted.sd_updates d)
                    (Scripted.sd_resyncs d)) <$> darkies (self fr3), 0%nat)
    = Ok (Sigma (self fr4), darkies (self fr4), rng fr4) ∧
    (λ d, (Scripted.sd_id d, Scripted.sd_resyncs d)) <$> darkies (self fr4)
    = [(1%nat, [7]); (2%nat, []); (3%nat, [7])].
Proof.
  eexists _, _. split; [vm_compute; reflexivity|]. split; [vm_compute; reflexivity|].
  split; [reflexivity|].
  assert (last [1; 0; 0; 1] = Some 1) as Hlast by reflexivity.
  assert (0 < merge_length [1; 0; 0; 1]%Z)%nat as H0 by (vm_compute; lia).
  assert (1 < merge_length [1; 0; 0; 1]%Z)%nat as H1 by (vm_compute; lia).
  split; [exact Hlast|]. split; [exact H1|].
  match goal with
  | |- context [finalize _ _ _ _ ?s] =>
      destruct (proj1 (proj2 resync_scan_window) Z nat Scripted.sdarkie
                  Scripted.number_Z Scripted.random_nat Scripted.darkie_scripted
                  Scripted.EL 3 [7] [1; 0; 0; 1] s Hlast)
        as (Hfin & Hlen & Hlook & _)
  end.
  split; [exact Hlen|]. split; [exact (Hlook 0%nat H0)|].
  split; [exact (Hlook 1%nat H1)|]. split; [|reflexivity].
  etrans; [exact Hfin|]. vm_compute. reflexivity.
Defined.

(** ** What a search is answered with *)

Section ServingProps.
Context {Exc Block Transactions Transaction Html : Type}.
Variable get_block : string → result Exc Block.
Variable get_block_transactions : string → result Exc Transactions.
Variable get_transaction : string → result Exc Transaction.
Variable render_template :
  string → @Explorer.context Block Transactions Transaction → result Exc Html.
Variable http_code : Exc → option nat.
Variable default_page : nat → Html.

Local Abbreviation search :=
  (Explorer.search get_block get_block_transactions get_transaction render_template).
Local Abbreviation search_block :=
  (Explorer.search_block get_block get_block_transactions render_template).
Local Abbreviation search_transaction :=
  (Explorer.search_transaction get_transaction render_template).
Local Abbreviation respond := (Serving.respond render_template http_code default_page).

(** C9. [search] first tries the block lookup (the block, then its
    transactions, then the block page) and the request is answered with
    that page and status 200 when it succeeds; when the attempt raises,
    whatever the exception, [search] does what the transaction lookup does,
    and the request is answered with the transaction page and status 200
    when that succeeds. When the transaction lookup raises as well, the
    exception leaves [search] and the request is answered by the handler it
    is dispatched to: the handler of lines 57-59, the page [500.html] with
    status 500, for an exception that is not an HTTP error; the handler of
    lines 53-55, the page [404.html] with status 404, only for an exception
    that is itself an HTTP 404. *)
Theorem search_failure_response (search_hash : string) (e : Exc) :
  search_block search_hash = Raise e →
  search search_hash = search_transaction search_hash ∧
  (∀ transaction page,
     get_transaction search_hash = Ok transaction →
     render_template "transaction.html" (Explorer.TransactionCtx transaction) = Ok page →
     search search_hash = Ok page ∧ respond (search search_hash) = Ok (page, 200%nat)) ∧
  (∀ e', get_transaction search_hash = Raise e' →
     search search_hash = Raise e' ∧
     (http_code e' = None →
        respond (search search_hash) = Explorer.page_not_found_500 render_template e' ∧
        ∀ page, render_template "500.html" Explorer.NoCtx = Ok page →
                respond (search search_hash) = Ok (page, 500%nat)) ∧
     (http_code e' = Some 404%nat →
        respond (search search_hash) = Explorer.page_not_found_404 render_template e' ∧
        ∀ page, render_template "404.html" Explorer.NoCtx = Ok page →
                respond (search search_hash) = Ok (page, 404%nat))) ∧
  (∀ search_hash' block transactions page,
     get_block search_hash' = Ok block →
     get_block_transactions search_hash' = Ok transactions →
     render_template "block.html" (Explorer.BlockCtx block transactions) = Ok page →
     search search_hash' = Ok page ∧ respond (search search_hash') = Ok (page, 200%nat)).
Proof.
  intros Hb.
  assert (search search_hash = search_transaction search_hash) as Hs
    by (unfold Explorer.search; by rewrite Hb).
  split; [exact Hs|]. split; [|split].
  - intros transaction page Ht Hpage. rewrite Hs. unfold Explorer.search_transaction.
    rewrite Ht. simpl. by rewrite Hpage.
  - intros e' Ht. rewrite Hs. unfold Explorer.search_transaction. rewrite Ht. simpl.
    split; [done|]. split.
    + intros Hc. rewrite Hc. split; [done|]. intros page Hpage.
      unfold Explorer.page_not_found_500. by rewrite Hpage.
    + intros Hc. rewrite Hc. rewrite decide_True by done. split; [done|].
      intros page Hpage. unfold Explorer.page_not_found_404. by rewrite Hpage.
  - intros h' block transactions page Hblock Htxs Hpage.
    unfold Explorer.search, Explorer.search_block. rewrite Hblock. simpl.
    rewrite Htxs. simpl. by rewrite Hpage.
Qed.

End ServingProps.

(** For a hash that is neither a block nor a transaction both lookups raise
    an exception that is no HTTP error, and the request is answered with
    the page [500.html] and status 500, by the handler of lines 57-59: not
    with the not-found page of lines 53-55 and not with status 404. *)
Lemma search_miss_answered_500 :
  (∃ e, Explorer.Demo.get_block "beef" = Raise e) ∧
  (∃ e, Explorer.Demo.get_transaction "beef" = Raise e) ∧
  Explorer.Demo.search "beef" = Raise "no such transaction" ∧
  Samples.respond (Explorer.Demo.search "beef")
  = Ok (("500.html", Explorer.NoCtx), 500%nat) ∧
  Samples.respond (Explorer.Demo.search "beef")
  ≠ Explorer.page_not_found_404 Explorer.Demo.render_template "no such transaction" ∧
  ¬ (∃ page, Samples.respond (Explorer.Demo.search "beef") = Ok (page, 404%nat)).
Proof.
  split; [by eexists|]. split; [by eexists|]. split; [reflexivity|].
  split; [reflexivity|]. split; [vm_compute; discriminate|].
  intros [page Hr]. vm_compute in Hr. discriminate.
Qed.

(** The node of the examples: ["beef"] is answered by the 500 handler,
    and by the 404 handler when the exception of the lookup is an HTTP 404;
    ["7a01"] with the transaction page; ["b10c"] with the block page. *)
Lemma search_failure_response_witness :
  Explorer.search_block Explorer.Demo.get_block Explorer.Demo.get_block_transactions
    Explorer.Demo.render_template "beef" = Raise "no such block" ∧
  Explorer.Demo.get_transaction "beef" = Raise "no such transaction" ∧
  Samples.respond (Explorer.Demo.search "beef")
  = Ok (("500.html", Explorer.NoCtx), 500%nat) ∧
  Serving.respond Explorer.Demo.render_template (λ _, Some 404%nat)
    (λ _, ("", Explorer.NoCtx)) (Explorer.Demo.search "beef")
  = Ok (("404.html", Explorer.NoCtx), 404%nat) ∧
  Samples.respond (Explorer.Demo.search "7a01")
  = Ok (("transaction.html", Explorer.TransactionCtx "transaction 7a01"), 200%nat) ∧
  Samples.respond (Explorer.Demo.search "b10c")
  = Ok (("block.html", Explorer.BlockCtx "block b10c" ["7a01"]), 200%nat).
Proof.
  assert (Explorer.search_block Explorer.Demo.get_block Explorer.Demo.get_block_transactions
    Explorer.Demo.render_template "beef" = Raise "no such block") as Hb
    by reflexivity.
  assert (Explorer.search_block Explorer.Demo.get_block Explorer.Demo.get_block_transactions
    Explorer.Demo.render_template "7a01" = Raise "no such block") as Hb'
    by reflexivity.
  split; [exact Hb|]. split; [reflexivity|]. split; [|split; [|split]].
  - refine (proj2 (proj1 (proj2 (proj1 (proj2 (proj2
      (search_failure_response Explorer.Demo.get_block
         Explorer.Demo.get_block_transactions Explorer.Demo.get_transaction
         Explorer.Demo.render_template (λ _, None) (λ _, ("", Explorer.NoCtx))
         "beef" "no such block" Hb))) "no such transaction" eq_refl)) eq_refl) _ eq_refl).
  - refine (proj2 (proj2 (proj2 (proj1 (proj2 (proj2
      (search_failure_response Explorer.Demo.get_block
         Explorer.Demo.get_block_transactions Explorer.Demo.get_transaction
         Explorer.Demo.render_template (λ _, Some 404%nat) (λ _, ("", Explorer.NoCtx))
         "beef" "no such block" Hb))) "no such transaction" eq_refl)) eq_refl) _ eq_refl).
  - refine (proj2 (proj1 (proj2
      (search_failure_response Explorer.Demo.get_block
         Explorer.Demo.get_block_transactions Explorer.Demo.get_transaction
         Explorer.Demo.render_template (λ _, None) (λ _, ("", Explorer.NoCtx))
         "7a01" "no such block" Hb')) "transaction 7a01" _ eq_refl eq_refl)).
  - refine (proj2 (proj2 (proj2 (proj2
      (search_failure_response Explorer.Demo.get_block
         Explorer.Demo.get_block_transactions Explorer.Demo.get_transaction
         Explorer.Demo.render_template (λ _, None) (λ _, ("", Explorer.NoCtx))
         "beef" "no such block" Hb))) "b10c" "block b10c" ["7a01"] _
         eq_refl eq_refl eq_refl)).
Defined.
